(** * The chat client of the scheduling assistant (static/js/chat.js)

    A shallow embedding of the browser-side chat script: the text-to-markup
    conversion of bot messages ([formatEmailSelectionMessage], [escapeHtml]),
    the selection tracker installed by [setupEmailOptionListeners], and the
    turn cycle around [sendMessage] and the reset button.

    Conventions of the embedding.
    - A JavaScript string is a [string]; one [ascii] stands for one code unit
      in the range 0..255 (so 160 is the no-break space).
    - [undefined] from a destructuring that runs short is [None].
    - The DOM is a record of the parts the script reads and writes; the
      elements of the transcript keep the [innerHTML] the script assigns and,
      next to it, the option controls the widget builder writes into it.
      The HTML parser itself is not modelled: the controls are those of the
      page for texts that hold no markup character ([inert]).
    - The body of a response is any JSON value; what the script does with
      values of the wrong type, up to the [TypeError] it runs into, is part
      of the model ([completion], [outcome]).
    - Every callback the script registers is one constructor of [event];
      [step] runs the callback to completion, as the event loop does. *)

From Stdlib Require Import String Ascii List Bool Arith Lia Sorted.
Import ListNotations.
Open Scope string_scope.

(* ===================================================================== *)
(** ** JavaScript string primitives used by the script *)
(* ===================================================================== *)

Module JS.

Definition dq : string := String "034"%char EmptyString.
Definition nl : string := String "010"%char EmptyString.

Definition code (c : ascii) : nat := nat_of_ascii c.

Definition between (lo hi : nat) (c : ascii) : bool :=
  Nat.leb lo (code c) && Nat.leb (code c) hi.

(** White space and line terminators, as [trim] and the class [\s] see
    them: TAB, LF, VT, FF, CR, SPACE and NBSP. *)
Definition is_space (c : ascii) : bool :=
  between 9 13 c || Nat.eqb (code c) 32 || Nat.eqb (code c) 160.

Definition is_upper (c : ascii) : bool := between 65 90 c.
Definition is_lower (c : ascii) : bool := between 97 122 c.
Definition is_alpha (c : ascii) : bool := is_upper c || is_lower c.
Definition is_digit (c : ascii) : bool := between 48 57 c.

Definition one_of (cs : string) (c : ascii) : bool :=
  existsb (Ascii.eqb c) (list_ascii_of_string cs).

Fixpoint drop (n : nat) (s : string) : string :=
  match n, s with
  | S k, String _ s' => drop k s'
  | _, _ => s
  end.

Fixpoint take (n : nat) (s : string) : string :=
  match n, s with
  | S k, String c s' => String c (take k s')
  | _, _ => EmptyString
  end.

(** [break_at sep s]: the text before and after the first occurrence of
    [sep] in [s], when there is one. *)
Fixpoint break_at (sep s : string) : option (string * string) :=
  if prefix sep s then Some (EmptyString, drop (String.length sep) s)
  else match s with
       | EmptyString => None
       | String c s' =>
           match break_at sep s' with
           | Some (a, b) => Some (String c a, b)
           | None => None
           end
       end.

(** [String.prototype.includes]. *)
Definition includes (s needle : string) : bool :=
  match break_at needle s with Some _ => true | None => false end.

Fixpoint split_fuel (fuel : nat) (sep s : string) : list string :=
  match fuel with
  | O => [s]
  | S f =>
      match break_at sep s with
      | None => [s]
      | Some (a, b) => a :: split_fuel f sep b
      end
  end.

(** [String.prototype.split] with a non-empty string separator: the
    pieces between successive occurrences, searched left to right, each
    search resuming after the previous occurrence.  Every occurrence
    consumes at least one code unit, so [length s] rounds are enough. *)
Definition split (s sep : string) : list string :=
  split_fuel (String.length s) sep s.

(** [s.split(sep, limit)]. *)
Definition split_limit (s sep : string) (limit : nat) : list string :=
  firstn limit (split s sep).

Fixpoint trimStart (s : string) : string :=
  match s with
  | String c s' => if is_space c then trimStart s' else s
  | EmptyString => EmptyString
  end.

Fixpoint trimEnd (s : string) : string :=
  match s with
  | EmptyString => EmptyString
  | String c s' =>
      match trimEnd s' with
      | EmptyString => if is_space c then EmptyString else String c EmptyString
      | r => String c r
      end
  end.

(** [String.prototype.trim]. *)
Definition trim (s : string) : string := trimEnd (trimStart s).

(** [Array.prototype.join]. *)
Fixpoint join (sep : string) (l : list string) : string :=
  match l with
  | [] => EmptyString
  | [x] => x
  | x :: r => x ++ sep ++ join sep r
  end.

(** Number of (possibly overlapping) occurrences of [needle] in [s]. *)
Fixpoint occurrences (needle s : string) : nat :=
  (if prefix needle s then 1 else 0) +
  match s with
  | EmptyString => 0
  | String _ s' => occurrences needle s'
  end.

End JS.

(* ===================================================================== *)
(** ** The two regular expressions of the script

    Both patterns are built from literals, character classes, greedy
    repetition of a class and capture groups; [exec] is the backtracking
    matcher for that fragment, in continuation-passing style: a greedy
    repetition first tries the longest run and gives characters back one at
    a time when the rest of the pattern fails. *)
(* ===================================================================== *)

Module Regex.
Import JS.

Inductive regex : Type :=
| Lit (c : ascii)
| Rep (p : ascii -> bool) (min : nat)     (* [p]{min,}, greedy *)
| Cat (a b : regex)
| Group (n : nat) (r : regex).

Definition captures := list (nat * string).

Fixpoint capture (n : nat) (cs : captures) : string :=
  match cs with
  | [] => EmptyString
  | (m, s) :: r => if Nat.eqb m n then s else capture n r
  end.

Section Matcher.
Context {R : Type}.

Fixpoint rep (p : ascii -> bool) (min : nat) (s : string) (n : nat)
         (k : string -> option R) : option R :=
  match s with
  | String c s' =>
      if p c then
        match rep p min s' (S n) k with
        | Some r => Some r
        | None => if Nat.leb min n then k s else None
        end
      else if Nat.leb min n then k s else None
  | EmptyString => if Nat.leb min n then k s else None
  end.

Fixpoint exec (r : regex) (s : string) (cs : captures)
         (k : string -> captures -> option R) : option R :=
  match r with
  | Lit c =>
      match s with
      | String d s' => if Ascii.eqb c d then k s' cs else None
      | EmptyString => None
      end
  | Rep p min => rep p min s 0 (fun s' => k s' cs)
  | Cat a b => exec a s cs (fun s' cs' => exec b s' cs' k)
  | Group n g =>
      exec g s cs
          (fun s' cs' => k s' ((n, take (String.length s - String.length s') s) :: cs'))
  end.
End Matcher.

(** A match starting at the first character of [s]: the captures and the
    text left after the match. *)
Definition match_here (r : regex) (s : string) : option (captures * string) :=
  exec r s [] (fun s' cs => Some (cs, s')).

(** [s.match(r)] for a pattern without the [g] flag: the leftmost match. *)
Fixpoint search (r : regex) (s : string) : option captures :=
  match match_here r s with
  | Some (cs, _) => Some cs
  | None =>
      match s with
      | EmptyString => None
      | String _ s' => search r s'
      end
  end.

(** [s.replace(r, ...)] for a pattern with the [g] flag whose matches are
    never empty: [skip] counts the characters of the current match still
    to be passed over. *)
Fixpoint replace_go (r : regex) (subst : captures -> string)
         (s : string) (skip : nat) : string :=
  match s with
  | EmptyString => EmptyString
  | String c s' =>
      match skip with
      | S k => replace_go r subst s' k
      | O =>
          match match_here r s with
          | Some (cs, rest) =>
              subst cs ++ replace_go r subst s' (String.length s - String.length rest - 1)
          | None => String c (replace_go r subst s' 0)
          end
      end
  end.

Definition replace_all (r : regex) (subst : captures -> string)
           (s : string) : string :=
  replace_go r subst s 0.

Definition any_char (c : ascii) : bool :=
  negb (Nat.eqb (code c) 10 || Nat.eqb (code c) 13).

Definition name_class (c : ascii) : bool := is_alpha c || is_space c.
Definition local_class (c : ascii) : bool :=
  is_alpha c || is_digit c || one_of "._%+-" c.
Definition domain_class (c : ascii) : bool :=
  is_alpha c || is_digit c || one_of ".-" c.

Fixpoint seq_of (l : list regex) (last : regex) : regex :=
  match l with
  | [] => last
  | r :: l' => Cat r (seq_of l' last)
  end.

(** /([A-Za-z\s]+)\s+\(([a-zA-Z0-9._%+-]+@[a-zA-Z0-9.-]+\.[a-zA-Z]{2,})\)/g *)
Definition mention_re : regex :=
  seq_of
    [ Group 1 (Rep name_class 1);
      Rep is_space 1;
      Lit "(";
      Group 2 (seq_of [Rep local_class 1; Lit "@"; Rep domain_class 1; Lit "."]
                      (Rep is_alpha 2)) ]
    (Lit ")").

(** /(.+)\s+\((.+@.+\..+)\)/ *)
Definition attendee_re : regex :=
  seq_of
    [ Group 1 (Rep any_char 1);
      Rep is_space 1;
      Lit "(";
      Group 2 (seq_of [Rep any_char 1; Lit "@"; Rep any_char 1; Lit "."]
                      (Rep any_char 1)) ]
    (Lit ")").

End Regex.

Import JS.

(* ===================================================================== *)
(** ** Text to markup: [escapeHtml] and [formatEmailSelectionMessage] *)
(* ===================================================================== *)

(** What the serialisation of a text node writes for one code unit. *)
Definition escape_char (c : ascii) : string :=
  if Ascii.eqb c "&" then "&amp;"
  else if Ascii.eqb c "<" then "&lt;"
  else if Ascii.eqb c ">" then "&gt;"
  else if Nat.eqb (code c) 160 then "&nbsp;"
  else String c EmptyString.

(** [escapeHtml] on a string: the text is stored as the [textContent] of a
    fresh element and read back as its [innerHTML]. *)
Fixpoint escapeHtml (html : string) : string :=
  match html with
  | EmptyString => EmptyString
  | String c s => escape_char c ++ escapeHtml s
  end.

Definition found_marker : string := "Multiple contacts found for".
Definition select_marker : string := "Please select one or more by number".

(** The condition of the first [if] of [formatEmailSelectionMessage]. *)
Definition is_selection_prompt (message : string) : bool :=
  includes message found_marker && includes message select_marker.

(** The condition of its second [if]. *)
Definition has_email_shape (message : string) : bool :=
  includes message "@" && includes message "(" && includes message ")".

(** [const [introText, optionsText] = message.split(select_marker)]: the
    first two pieces of the split; further pieces are not bound. *)
Definition selection_parts (message : string) : option string * option string :=
  let parts := split message select_marker in
  (nth_error parts 0, nth_error parts 1).

(** A template literal writes [undefined] for a missing value. *)
Definition interpolate (v : option string) : string :=
  match v with
  | Some s => s
  | None => "undefined"
  end.

(** [const [number, details] = option.split('. ', 2)]. *)
Definition parse_option (entry : string) : option string * option string :=
  let pieces := split_limit entry ". " 2 in
  (nth_error pieces 0, nth_error pieces 1).

(** [optionsText.trim().split('\n')]. *)
Definition option_lines (optionsText : string) : list string :=
  split (trim optionsText) nl.

Definition formattedIntro (introText : string) : string :=
  "<p class=" ++ dq ++ "mb-2" ++ dq ++ ">" ++ introText ++ " Please select one or more by number (e.g., " ++ dq ++ "1" ++ dq ++ ", " ++ dq ++ "2" ++ dq ++ ", " ++ dq ++ "1 and 2" ++ dq ++ ", or " ++ dq ++ "all" ++ dq ++ "):</p>".

(** The button appended for one entry of [options]. *)
Definition option_button (number details : string) : string :=
  nl
    ++ "                    <button class=" ++ dq ++ "email-option text-left bg-blue-50 hover:bg-blue-100 py-2 px-3 rounded-md transition-colors" ++ dq ++ " " ++ nl
    ++ "                            data-number=" ++ dq ++ number ++ dq ++ ">" ++ nl
    ++ "                        <label class=" ++ dq ++ "flex items-center cursor-pointer" ++ dq ++ ">" ++ nl
    ++ "                            <input type=" ++ dq ++ "checkbox" ++ dq ++ " class=" ++ dq ++ "mr-2 h-4 w-4 text-blue-600 focus:ring-blue-500 rounded" ++ dq ++ ">" ++ nl
    ++ "                            <span class=" ++ dq ++ "font-semibold text-blue-600" ++ dq ++ ">" ++ number ++ ".</span> " ++ details ++ nl
    ++ "                        </label>" ++ nl
    ++ "                    </button>" ++ nl
    ++ "                ".

(** The select-all and confirm buttons, appended once after the options. *)
Definition aggregate_controls : string :=
  nl
    ++ "                <div class=" ++ dq ++ "mt-2 flex justify-between" ++ dq ++ ">" ++ nl
    ++ "                    <button id=" ++ dq ++ "select-all" ++ dq ++ " class=" ++ dq ++ "text-blue-600 text-sm hover:text-blue-800" ++ dq ++ ">" ++ nl
    ++ "                        Select All" ++ nl
    ++ "                    </button>" ++ nl
    ++ "                    <button id=" ++ dq ++ "submit-selection" ++ dq ++ " class=" ++ dq ++ "bg-blue-600 text-white text-sm py-1 px-3 rounded hover:bg-blue-700" ++ dq ++ ">" ++ nl
    ++ "                        Confirm Selection" ++ nl
    ++ "                    </button>" ++ nl
    ++ "                </div>" ++ nl
    ++ "            ".

(** The body of [options.forEach]: one button is appended per entry. *)
Definition append_option (formattedOptions entry : string) : string :=
  let '(number, details) := parse_option entry in
  formattedOptions ++ option_button (interpolate number) (interpolate details).

Definition formattedOptions (optionsText : string) : string :=
  fold_left append_option (option_lines optionsText)
            ("<div class=" ++ dq ++ "grid gap-2 mt-2" ++ dq ++ ">")
  ++ aggregate_controls
  ++ "</div>".

(** The replacement of the second branch, with [$1] and [$2] filled in. *)
Definition mention_markup (cs : Regex.captures) : string :=
  "<span class=" ++ dq ++ "text-blue-700 font-medium" ++ dq ++ ">"
  ++ Regex.capture 1 cs
  ++ "</span> <span class=" ++ dq ++ "text-blue-500 text-sm" ++ dq ++ ">("
  ++ Regex.capture 2 cs ++ ")</span>".

(** [formatEmailSelectionMessage] on a string.  In the first branch both
    destructured names are bound (see [selection_parts_bound]); the
    [EmptyString] defaults are never used. *)
Definition formatEmailSelectionMessage (message : string) : string :=
  if is_selection_prompt message then
    let '(introText, optionsText) := selection_parts message in
    formattedIntro (interpolate introText)
    ++ formattedOptions (match optionsText with Some t => t | None => EmptyString end)
  else if has_email_shape message then
    Regex.replace_all Regex.mention_re mention_markup message
  else
    escapeHtml message.

(** The option controls the widget builder writes for a message: the
    [data-number] of each [.email-option] button, in source order.  A
    message that is not a selection prompt gets none. *)
Definition option_ids (message : string) : list string :=
  if is_selection_prompt message then
    match snd (selection_parts message) with
    | Some optionsText =>
        map (fun entry => interpolate (fst (parse_option entry)))
            (option_lines optionsText)
    | None => []
    end
  else [].

(** The details written next to each id. *)
Definition option_details (message : string) : list string :=
  if is_selection_prompt message then
    match snd (selection_parts message) with
    | Some optionsText =>
        map (fun entry => interpolate (snd (parse_option entry)))
            (option_lines optionsText)
    | None => []
    end
  else [].

(* ===================================================================== *)
(** ** The page: transcript, entity panel, selection set, effects *)
(* ===================================================================== *)

(** A [Set] of strings, kept as the list of its members in insertion
    order, which is the order [Array.from] and iteration give. *)
Module StrSet.

Definition t := list string.

Definition has (x : string) (s : t) : bool := existsb (String.eqb x) s.

(** [add] appends a new member at the end and leaves a present one where
    it is. *)
Definition add (x : string) (s : t) : t :=
  if has x s then s else (s ++ [x])%list.

Definition delete (x : string) (s : t) : t :=
  filter (fun y => negb (String.eqb x y)) s.

Definition clear (s : t) : t := [].

Definition size (s : t) : nat := List.length s.

End StrSet.

(** One [.email-option] button: its [data-number] and the state of its
    checkbox. *)
Record option_ctl : Type := {
  data_number : string;
  checked : bool
}.

(** The children of [#chat-container]. *)
Inductive element : Type :=
| UserMessage (innerHTML : string)
| BotMessage (innerHTML : string) (controls : list option_ctl)
| TypingIndicator.

(** The [className] of a plain tag: a text the script spells out, or
    ["entity-tag "] followed by whatever the engine prints for the member
    of [Object.prototype] that the lookup in [entityColors] found. *)
Inductive class_name : Type :=
| ClassText (s : string)
| ClassOfMember (member : string).

Inductive tag : Type :=
| EmailChip (innerHTML : string)
| EntityTag (className : class_name) (textContent : string).

(** The children of [#entity-display]. *)
Inductive panel_item : Type :=
| EntityGroup (typeLabel : string) (tags : list tag)
| CompleteMark.

(** The calls of [fetch]. *)
Inductive request : Type :=
| PostMessage (message : string)
| PostReset.

Record state : Type := {
  chat : list element;
  inputValue : string;
  entityPanelHidden : bool;
  entityDisplay : list panel_item;
  selectedOptions : StrSet.t;
  requests : list request;       (* every fetch issued so far, oldest first *)
  alerts : list string           (* every alert shown so far, oldest first *)
}.

Definition with_chat (st : state) (c : list element) : state :=
  {| chat := c; inputValue := inputValue st;
     entityPanelHidden := entityPanelHidden st;
     entityDisplay := entityDisplay st;
     selectedOptions := selectedOptions st;
     requests := requests st; alerts := alerts st |}.

Definition with_selected (st : state) (s : StrSet.t) : state :=
  {| chat := chat st; inputValue := inputValue st;
     entityPanelHidden := entityPanelHidden st;
     entityDisplay := entityDisplay st;
     selectedOptions := s;
     requests := requests st; alerts := alerts st |}.

Definition with_input (st : state) (v : string) : state :=
  {| chat := chat st; inputValue := v;
     entityPanelHidden := entityPanelHidden st;
     entityDisplay := entityDisplay st;
     selectedOptions := selectedOptions st;
     requests := requests st; alerts := alerts st |}.

Definition with_panel (st : state) (hidden : bool) (items : list panel_item) : state :=
  {| chat := chat st; inputValue := inputValue st;
     entityPanelHidden := hidden;
     entityDisplay := items;
     selectedOptions := selectedOptions st;
     requests := requests st; alerts := alerts st |}.

Definition fetch (st : state) (r : request) : state :=
  {| chat := chat st; inputValue := inputValue st;
     entityPanelHidden := entityPanelHidden st;
     entityDisplay := entityDisplay st;
     selectedOptions := selectedOptions st;
     requests := (requests st ++ [r])%list; alerts := alerts st |}.

Definition alert (st : state) (text : string) : state :=
  {| chat := chat st; inputValue := inputValue st;
     entityPanelHidden := entityPanelHidden st;
     entityDisplay := entityDisplay st;
     selectedOptions := selectedOptions st;
     requests := requests st; alerts := (alerts st ++ [text])%list |}.

(** The option controls of one element and of the whole document, in
    document order: what
    [querySelectorAll('.email-option input[type="checkbox"]')] walks. *)
Definition controls_of (e : element) : list option_ctl :=
  match e with
  | BotMessage _ cs => cs
  | _ => []
  end.

Definition rendered_options (st : state) : list option_ctl :=
  flat_map controls_of (chat st).

Definition rendered_ids (st : state) : list string :=
  map data_number (rendered_options st).

(** [f] applied to the [i]-th option control of the document. *)
Fixpoint update_ctl (i : nat) (f : option_ctl -> option_ctl)
         (cs : list option_ctl) {struct cs} : list option_ctl :=
  match cs, i with
  | [], _ => []
  | c :: r, O => f c :: r
  | c :: r, S k => c :: update_ctl k f r
  end.

Fixpoint update_option (i : nat) (f : option_ctl -> option_ctl)
         (c : list element) : list element :=
  match c with
  | [] => []
  | BotMessage h cs :: r =>
      if Nat.ltb i (List.length cs) then BotMessage h (update_ctl i f cs) :: r
      else BotMessage h cs :: update_option (i - List.length cs) f r
  | e :: r => e :: update_option i f r
  end.

Definition map_options (f : option_ctl -> option_ctl) (c : list element)
  : list element :=
  map (fun e => match e with
                | BotMessage h cs => BotMessage h (map f cs)
                | _ => e
                end) c.

Definition set_checked (b : bool) (o : option_ctl) : option_ctl :=
  {| data_number := data_number o; checked := b |}.

Definition toggle_checked (o : option_ctl) : option_ctl :=
  set_checked (negb (checked o)) o.

(* ===================================================================== *)
(** ** Rendering turns *)
(* ===================================================================== *)

Definition typing_innerHTML : string :=
  nl
    ++ "            <div class=" ++ dq ++ "w-10 h-10 rounded-full bg-blue-500 flex items-center justify-center text-white mr-3" ++ dq ++ ">" ++ nl
    ++ "                <i class=" ++ dq ++ "fas fa-robot" ++ dq ++ "></i>" ++ nl
    ++ "            </div>" ++ nl
    ++ "            <div class=" ++ dq ++ "bg-blue-100 rounded-lg py-2 px-4 max-w-md" ++ dq ++ ">" ++ nl
    ++ "                <span class=" ++ dq ++ "typing-indicator font-medium" ++ dq ++ ">Thinking</span>" ++ nl
    ++ "            </div>" ++ nl
    ++ "        ".

Definition user_innerHTML (message : string) : string :=
  nl
    ++ "            <div class=" ++ dq ++ "bg-blue-600 text-white rounded-lg py-2 px-4 max-w-md" ++ dq ++ ">" ++ nl
    ++ "                <p>" ++ escapeHtml message ++ "</p>" ++ nl
    ++ "            </div>" ++ nl
    ++ "            <div class=" ++ dq ++ "w-10 h-10 rounded-full bg-gray-300 flex items-center justify-center ml-3" ++ dq ++ ">" ++ nl
    ++ "                <i class=" ++ dq ++ "fas fa-user" ++ dq ++ "></i>" ++ nl
    ++ "            </div>" ++ nl
    ++ "        ".

Definition bot_innerHTML (formattedMessage : string) : string :=
  nl
    ++ "            <div class=" ++ dq ++ "w-10 h-10 rounded-full bg-blue-500 flex items-center justify-center text-white mr-3" ++ dq ++ ">" ++ nl
    ++ "                <i class=" ++ dq ++ "fas fa-robot" ++ dq ++ "></i>" ++ nl
    ++ "            </div>" ++ nl
    ++ "            <div class=" ++ dq ++ "bg-blue-100 rounded-lg py-2 px-4 max-w-md" ++ dq ++ ">" ++ nl
    ++ "                " ++ formattedMessage ++ nl
    ++ "            </div>" ++ nl
    ++ "        ".

Definition addUserMessage (message : string) (st : state) : state :=
  with_chat st (chat st ++ [UserMessage (user_innerHTML message)])%list.

(** Code units the HTML parser does not take as they are: those that open
    or close a tag, a character reference or an attribute value, and the
    two it rewrites (NUL and carriage return). *)
Definition markup_char (c : ascii) : bool :=
  Ascii.eqb c "<" || Ascii.eqb c ">" || Ascii.eqb c "&" ||
  Nat.eqb (code c) 34 || Nat.eqb (code c) 0 || Nat.eqb (code c) 13.

(** A text without such code units. *)
Fixpoint inert (s : string) : bool :=
  match s with
  | EmptyString => true
  | String c r => negb (markup_char c) && inert r
  end.

(** The element [addBotMessage] appends for a string.  Its controls are
    read off the text: one option for each line of the option block, with
    the id as the line writes it.  For an [inert] text these are the
    controls the parser builds from the markup assigned to [innerHTML].
    The selection branch and the mention branch interpolate the text as
    it comes, so a text that is not inert can add elements to the page
    (an id [typing-indicator], further options), close the ones of the
    template early or change an id on its way into the attribute; the
    controls listed here then are not those of the page. *)
Definition bot_element (message : string) : element :=
  BotMessage (bot_innerHTML (formatEmailSelectionMessage message))
             (map (fun id => {| data_number := id; checked := false |})
                  (option_ids message)).

Definition addBotMessage (message : string) (st : state) : state :=
  with_chat st (chat st ++ [bot_element message])%list.

(* ===================================================================== *)
(** ** Values that arrive from the backend *)
(* ===================================================================== *)

(** What [JSON.parse] can return, and [undefined] for an absent property. *)
#[local] Unset Elimination Schemes.
Inductive jsval : Type :=
| JUndefined
| JNull
| JBool (b : bool)
| JNum (n : nat)
| JStr (s : string)
| JArr (items : list jsval)
| JObj (fields : list (string * jsval)).
#[local] Set Elimination Schemes.

(** How a piece of script ends: normally, or by throwing a [TypeError]. *)
Inductive completion (A : Type) : Type :=
| Normal (a : A)
| Throw.
Arguments Normal {A} a.
Arguments Throw {A}.

(** [Array.prototype.includes] asked for a string. *)
Definition array_includes (items : list jsval) (s : string) : bool :=
  existsb (fun v => match v with JStr t => String.eqb t s | _ => false end) items.

(** [formatEmailSelectionMessage] on whatever [data.response] holds.  Only
    strings and arrays have a callable [includes]; an array has neither
    [split] nor [replace], and [escapeHtml] answers [''] for a value that
    is not a string. *)
Definition formatEmailSelectionMessage_value (message : jsval) : completion string :=
  match message with
  | JStr s => Normal (formatEmailSelectionMessage s)
  | JArr items =>
      if array_includes items found_marker && array_includes items select_marker
      then Throw
      else if array_includes items "@" && array_includes items "("
              && array_includes items ")"
      then Throw
      else Normal EmptyString
  | _ => Throw
  end.

(** [addBotMessage] on whatever [data.response] holds: nothing is appended
    when the formatting throws. *)
Definition addBotMessage_value (message : jsval) (st : state) : completion state :=
  match message with
  | JStr s => Normal (addBotMessage s st)
  | _ =>
      match formatEmailSelectionMessage_value message with
      | Normal formatted =>
          Normal (with_chat st (chat st ++ [BotMessage (bot_innerHTML formatted) []])%list)
      | Throw => Throw
      end
  end.

(** How the loop of [updateEntityPanel] sees the value of one entry of
    [data.entities], whatever JSON it is.
    - [Values items]: an array; it passes the test [values && values.length
      > 0] when it is not empty and is then walked by [values.forEach].
    - [Text s]: a string; a non-empty one passes the test and has no
      [forEach].
    - [Unlistable]: an object whose own [length] compares greater than 0;
      it passes the test and has no callable [forEach].
    - [Skipped]: any value that fails the test without error: null, a
      number, a boolean, an object without such a [length]. *)
Inductive entity_value : Type :=
| Values (items : list jsval)
| Text (s : string)
| Unlistable
| Skipped.

(** The body of a response once [response.json()] has parsed it.  The
    [response] field is kept as it comes.  [entities] holds the pairs that
    [Object.entries(data.entities)] lists, in its order, and is empty when
    the first test of [updateEntityPanel] returns at once: [data.entities]
    absent or falsy, or without keys.  [complete] is the truthiness of
    [data.complete].  A body that is a number, a boolean or a string has
    no [response] ([JUndefined]) and no entries; on the body [null]
    reading [data.response] throws where formatting [undefined] would, so
    it is taken the same way. *)
Record payload : Type := {
  response : jsval;
  entities : list (string * entity_value);
  complete : bool
}.

(** How a [fetch] settles.  [Responded status None] is a response whose
    body is not JSON, so that [response.json()] rejects.  The script never
    reads [status]. *)
Inductive fetch_result : Type :=
| NetworkError
| Responded (status : nat) (body : option payload).

(* ===================================================================== *)
(** ** The entity panel *)
(* ===================================================================== *)

(** What indexing an object literal answers: the value of an own key, a
    member inherited from [Object.prototype] (a function or an object, so
    a truthy value), or [undefined]. *)
Inductive property : Type :=
| Own (value : string)
| Inherited
| Missing.

(** The names every object inherits from [Object.prototype]. *)
Definition object_prototype_members : list string :=
  [ "constructor"; "hasOwnProperty"; "isPrototypeOf"; "propertyIsEnumerable";
    "toLocaleString"; "toString"; "valueOf"; "__proto__";
    "__defineGetter__"; "__defineSetter__"; "__lookupGetter__";
    "__lookupSetter__" ].

(** [entityColors[type]]. *)
Definition entityColors (type : string) : property :=
  if String.eqb type "DATE" then Own "bg-green-200 text-green-800"
  else if String.eqb type "TIME" then Own "bg-blue-200 text-blue-800"
  else if String.eqb type "DURATION" then Own "bg-purple-200 text-purple-800"
  else if String.eqb type "ATTENDEE" then Own "bg-yellow-200 text-yellow-800"
  else if existsb (String.eqb type) object_prototype_members then Inherited
  else Missing.

(** [`entity-tag ${entityColors[type] || 'bg-gray-200 text-gray-800'}`]. *)
Definition tag_class (type : string) : class_name :=
  match entityColors type with
  | Own c => ClassText ("entity-tag " ++ c)
  | Inherited => ClassOfMember type
  | Missing => ClassText "entity-tag bg-gray-200 text-gray-800"
  end.

Definition chip_innerHTML (displayValue emailValue : string) : string :=
  nl
    ++ "                            <span class=" ++ dq ++ "email-chip-name" ++ dq ++ ">" ++ escapeHtml displayValue ++ "</span>" ++ nl
    ++ "                            <span class=" ++ dq ++ "email-chip-email" ++ dq ++ ">" ++ escapeHtml emailValue ++ "</span>" ++ nl
    ++ "                        ".

(** The body of [values.forEach]. *)
Definition value_tag (type value : string) : tag :=
  let '(displayValue, emailValue) :=
    match Regex.search Regex.attendee_re value with
    | Some cs => (Regex.capture 1 cs, Regex.capture 2 cs)
    | None => (value, EmptyString)
    end in
  if negb (String.eqb emailValue EmptyString) then
    EmailChip (chip_innerHTML displayValue emailValue)
  else
    EntityTag (tag_class type) value.

Definition entity_groups (entities : list (string * list string)) : list panel_item :=
  flat_map (fun '(type, values) =>
              match values with
              | [] => []
              | _ => [EntityGroup type (map (value_tag type) values)]
              end) entities.

(** [updateEntityPanel] on entities of the types of the backend contract:
    a map from a type to a list of strings, [None] when absent or null.
    No round of the loop throws on such values. *)
Definition updateEntityPanel (entities : option (list (string * list string)))
           (isComplete : bool) (st : state) : state :=
  match entities with
  | None | Some [] => st
  | Some es =>
      with_panel st false
                 (entity_groups es ++ (if isComplete then [CompleteMark] else []))%list
  end.

(** How a piece of script that changes the page ends: the page it leaves
    behind, reached normally or at the point where a [TypeError] was
    thrown. *)
Inductive outcome : Type :=
| Finished (st : state)
| Thrown (st : state).

(** The items of an array when all of them are strings. *)
Fixpoint strings_of (items : list jsval) : option (list string) :=
  match items with
  | [] => Some []
  | JStr s :: rest =>
      match strings_of rest with
      | Some l => Some (s :: l)
      | None => None
      end
  | _ => None
  end.

(** One round of the loop over the entries: the group it appends to the
    display, if any.  [values.forEach] throws for a value that passed the
    test and is no array, and [value.match] throws for an item that is no
    string; in both cases the group under construction is not appended. *)
Definition entity_round (type : string) (values : entity_value)
  : completion (list panel_item) :=
  match values with
  | Skipped => Normal []
  | Text s => if String.eqb s EmptyString then Normal [] else Throw
  | Unlistable => Throw
  | Values [] => Normal []
  | Values items =>
      match strings_of items with
      | Some vs => Normal [EntityGroup type (map (value_tag type) vs)]
      | None => Throw
      end
  end.

(** The loop over the entries: what the display shows when the loop ends,
    and whether it ended by a throw. *)
Fixpoint walk_entries (entries : list (string * entity_value))
         (shown : list panel_item) : list panel_item * bool :=
  match entries with
  | [] => (shown, false)
  | (type, values) :: rest =>
      match entity_round type values with
      | Normal group => walk_entries rest (shown ++ group)%list
      | Throw => (shown, true)
      end
  end.

(** [updateEntityPanel] on whatever the body carries.  When the loop
    throws, the panel has been shown and cleared and holds the groups
    appended so far. *)
Definition updateEntityPanel_view (entities : list (string * entity_value))
           (isComplete : bool) (st : state) : outcome :=
  match entities with
  | [] => Finished st
  | _ =>
      let '(shown, thrown) := walk_entries entities [] in
      if thrown then Thrown (with_panel st false shown)
      else Finished (with_panel st false
                       (shown ++ (if isComplete then [CompleteMark] else []))%list)
  end.

Definition outcome_state (o : outcome) : state :=
  match o with
  | Finished st => st
  | Thrown st => st
  end.

(** Entities of the types of the backend contract, as the general
    function takes them. *)
Definition typed_entities (es : list (string * list string))
  : list (string * entity_value) :=
  map (fun '(type, values) => (type, Values (map JStr values))) es.

(** The view of a JSON value as the value of an entry.  The comparison
    [length > 0] for an own [length] that is a string, an array or an
    object depends on the engine's conversion to a number and is left
    undecided. *)
Definition entity_value_of (v : jsval) : option entity_value :=
  match v with
  | JArr items => Some (Values items)
  | JStr s => Some (Text s)
  | JObj fields =>
      match find (fun kv => String.eqb (fst kv) "length") fields with
      | None => Some Skipped
      | Some (_, JNum n) => Some (if Nat.ltb 0 n then Unlistable else Skipped)
      | Some (_, JBool b) => Some (if b then Unlistable else Skipped)
      | Some (_, JNull) => Some Skipped
      | Some _ => None
      end
  | _ => Some Skipped
  end.

(** The entries of [data.entities] when it is an object, from its own
    properties in the order [Object.entries] lists them. *)
Fixpoint entries_of_fields (fields : list (string * jsval))
  : option (list (string * entity_value)) :=
  match fields with
  | [] => Some []
  | (key, v) :: rest =>
      match entity_value_of v, entries_of_fields rest with
      | Some view, Some l => Some ((key, view) :: l)
      | _, _ => None
      end
  end.

(* ===================================================================== *)
(** ** The turn cycle: submit, [sendMessage], reset *)
(* ===================================================================== *)

Definition welcome : string :=
  "Hello! I'm your scheduling assistant. How can I help you today?".
Definition message_apology : string :=
  "Sorry, there was an error processing your message. Please try again.".
Definition reset_apology : string :=
  "Sorry, there was an error resetting the chat. Please try again.".
Definition empty_selection_alert : string :=
  "Please select at least one contact.".

(** The page once the [DOMContentLoaded] callback has run. *)
Definition initial : state :=
  addBotMessage welcome
    {| chat := []; inputValue := EmptyString;
       entityPanelHidden := true; entityDisplay := [];
       selectedOptions := []; requests := []; alerts := [] |}.

(** [document.getElementById('typing-indicator')] finds the first one;
    [remove] takes it out. *)
Fixpoint remove_first_typing (c : list element) : list element :=
  match c with
  | [] => []
  | TypingIndicator :: r => r
  | e :: r => e :: remove_first_typing r
  end.

Definition remove_typing (st : state) : state :=
  with_chat st (remove_first_typing (chat st)).

(** [sendMessage] up to the point where it returns: the request is issued;
    its two continuations run when the request settles. *)
Definition sendMessage (message : string) (st : state) : state :=
  fetch st (PostMessage message).

(** The [catch] continuation of [sendMessage]. *)
Definition sendMessage_catch (st : state) : state :=
  addBotMessage message_apology (remove_typing st).

(** The continuations of [sendMessage] for a settled request.  An error
    thrown in the [then] continuation is caught by the same [catch], which
    runs on the page as the throw left it: without the bot turn when the
    formatting threw, with it when the panel refresh threw. *)
Definition sendMessage_settled (r : fetch_result) (st : state) : state :=
  match r with
  | Responded _ (Some data) =>
      let st1 := remove_typing st in
      match addBotMessage_value (response data) st1 with
      | Normal st2 =>
          match updateEntityPanel_view (entities data) (complete data) st2 with
          | Finished st3 => st3
          | Thrown st3 => sendMessage_catch st3
          end
      | Throw => sendMessage_catch st1
      end
  | _ => sendMessage_catch st
  end.

(** The [submit] listener of the form. *)
Definition on_submit (st : state) : state :=
  let message := trim (inputValue st) in
  if String.eqb message EmptyString then st
  else
    let st1 := addUserMessage message st in
    let st2 := with_input st1 EmptyString in
    let st3 := with_chat st2 (chat st2 ++ [TypingIndicator])%list in
    sendMessage message st3.

(** The [click] listener of the reset button; [confirmed] is the answer to
    the confirmation dialog. *)
Definition on_reset_click (confirmed : bool) (st : state) : state :=
  if confirmed then fetch st PostReset else st.

(** The continuations of the reset request. *)
Definition reset_settled (r : fetch_result) (st : state) : state :=
  match r with
  | Responded _ (Some data) =>
      let st1 := with_chat st [] in
      match addBotMessage_value (response data) st1 with
      | Normal st2 => with_panel st2 true (entityDisplay st2)
      | Throw => addBotMessage reset_apology st1
      end
  | _ => addBotMessage reset_apology st
  end.

(* ===================================================================== *)
(** ** The delegated click listener of [setupEmailOptionListeners] *)
(* ===================================================================== *)

(** Where a click lands, as far as the listener tells clicks apart.  The
    index counts the [.email-option] buttons of the document in document
    order.  [OptionBody] is a click whose target is the button itself or
    the text inside it.  The text stands in a [label] around the checkbox,
    and the last branch does not cancel the click: after the listener has
    run on a click on the text, the label activates its checkbox, which
    the listener sees as a second click, on [OptionCheckbox]. *)
Inductive target : Type :=
| OptionCheckbox (i : nat)        (* the checkbox inside the i-th option *)
| SelectAllButton                 (* an element with id [select-all] *)
| SubmitSelectionButton           (* an element with id [submit-selection] *)
| OptionBody (i : nat)            (* inside the i-th option, off its checkbox *)
| Elsewhere.

Definition selected_add (number : string) (st : state) : state :=
  with_selected st (StrSet.add number (selectedOptions st)).

Definition selected_delete (number : string) (st : state) : state :=
  with_selected st (StrSet.delete number (selectedOptions st)).

(** [if (checkedNow) selectedOptions.add(number) else
    selectedOptions.delete(number)]. *)
Definition record_choice (checkedNow : bool) (number : string) (st : state) : state :=
  if checkedNow then selected_add number st else selected_delete number st.

(** First branch: a click on a checkbox inside an option.  When the
    listener runs the browser has already flipped the checkbox, and the
    listener reads the flipped state. *)
Definition on_checkbox (o : option_ctl) (st : state) : state :=
  record_choice (checked o) (data_number o) st.

(** Second branch: the select-all button. *)
Definition on_select_all (st : state) : state :=
  let checkboxes := rendered_options st in
  let allChecked := forallb checked checkboxes in
  let st1 := with_chat st (map_options (set_checked (negb allChecked)) (chat st)) in
  fold_left (fun acc checkbox =>
               record_choice (negb allChecked) (data_number checkbox) acc)
            checkboxes st1.

(** Third branch: the confirm button. *)
Definition on_submit_selection (st : state) : state :=
  if Nat.eqb (StrSet.size (selectedOptions st)) 0 then
    alert st empty_selection_alert
  else
    let selectionText := join " and " (selectedOptions st) in
    let st1 := addUserMessage selectionText st in
    let st2 := sendMessage selectionText st1 in
    with_selected st2 (StrSet.clear (selectedOptions st2)).

(** Last branch: a click inside an option that is not on its checkbox
    toggles the checkbox and records the new state. *)
Definition on_option_body (i : nat) (st : state) : state :=
  match nth_error (rendered_options st) i with
  | Some o =>
      let st1 := with_chat st (update_option i toggle_checked (chat st)) in
      record_choice (negb (checked o)) (data_number o) st1
  | None => st
  end.

Section Browser.

(** The first branch calls [preventDefault] on a checkbox click.  Whether
    the browser then puts the checkbox back to the state it had before
    the click is not the script's doing; the model leaves it open. *)
Variable cancel_restores : bool.

(** A click on a checkbox: the browser flips it, the listener runs, and
    the cancelled click may be undone. *)
Definition click_checkbox (i : nat) (st : state) : state :=
  match nth_error (rendered_options st) i with
  | Some o =>
      let flipped := with_chat st (update_option i toggle_checked (chat st)) in
      let st1 := on_checkbox (toggle_checked o) flipped in
      if cancel_restores
      then with_chat st1 (update_option i (set_checked (checked o)) (chat st1))
      else st1
  | None => st
  end.

Definition on_click (t : target) (st : state) : state :=
  match t with
  | OptionCheckbox i => click_checkbox i st
  | SelectAllButton => on_select_all st
  | SubmitSelectionButton => on_submit_selection st
  | OptionBody i => on_option_body i st
  | Elsewhere => st
  end.

(** The callbacks the event loop can run, and what the user does to the
    input field between them. *)
Inductive event : Type :=
| Typed (value : string)
| Submit
| ResetClick (confirmed : bool)
| ResetSettled (r : fetch_result)
| MessageSettled (r : fetch_result)
| Click (t : target).

Definition step (st : state) (ev : event) : state :=
  match ev with
  | Typed value => with_input st value
  | Submit => on_submit st
  | ResetClick confirmed => on_reset_click confirmed st
  | ResetSettled r => reset_settled r st
  | MessageSettled r => sendMessage_settled r st
  | Click t => on_click t st
  end.

Definition run (st : state) (evs : list event) : state :=
  fold_left step evs st.

End Browser.

(** The selection never leaves the rendered options. *)
Definition selection_rendered (st : state) : Prop :=
  incl (selectedOptions st) (rendered_ids st).

(** Events that are not the successful continuation of a reset. *)
Definition keeps_transcript (ev : event) : bool :=
  match ev with
  | ResetSettled (Responded _ (Some _)) => false
  | _ => true
  end.

(** A response that puts no markup of its own on the page: a text that
    takes the selection branch or the mention branch, which interpolate it
    as it comes, is inert; any other text is escaped, and a value that is
    no string is not rendered. *)
Definition inert_value (v : jsval) : bool :=
  match v with
  | JStr s => negb (is_selection_prompt s || has_email_shape s) || inert s
  | _ => true
  end.

(** Events whose response, if they carry one, is of this kind, so that the
    controls of the transcript are those of the page. *)

Definition inert_event (ev : event) : bool :=
  match ev with
  | ResetSettled (Responded _ (Some data)) => inert_value (response data)
  | MessageSettled (Responded _ (Some data)) => inert_value (response data)
  | _ => true
  end.

(** Along the run of [evs] from [st], every answered reset renders again
    the ids that are selected when it is answered; this is so in
    particular when nothing is selected at that moment. *)
Fixpoint resets_keep_selection (cancel_restores : bool) (st : state)
         (evs : list event) : bool :=
  match evs with
  | [] => true
  | ev :: rest =>
      (keeps_transcript ev ||
       forallb (fun id => StrSet.has id (rendered_ids (step cancel_restores st ev)))
               (selectedOptions st))
      && resets_keep_selection cancel_restores (step cancel_restores st ev) rest
  end.

(* ===================================================================== *)
(** ** Vocabulary of the statements *)
(* ===================================================================== *)

(** [needle] occurs in [s]. *)
Definition contains (needle s : string) : Prop :=
  exists a b, s = a ++ needle ++ b.

(** [a] is the text before the first occurrence of [sep] in [s], and [b]
    the text after that occurrence. *)
Definition first_split (sep s a b : string) : Prop :=
  s = a ++ sep ++ b /\
  forall a' b', s = a' ++ sep ++ b' -> String.length a <= String.length a'.

(** The text [split] yields as its second piece when the first occurrence
    of [sep] is followed by [rest]: all of [rest] when [sep] does not occur
    in it again, and otherwise only what stands before the next
    occurrence. *)
Definition second_piece (sep rest : string) : string :=
  match break_at sep rest with
  | Some (mid, _) => mid
  | None => rest
  end.

(** The prompt of the specification's example. *)
Definition jane_prompt : string :=
  "Multiple contacts found for Jane. Please select one or more by number (e.g., ...):"
  ++ nl ++ "1. Jane Doe (jane@x.com)"
  ++ nl ++ "2. Jane Roe (jane2@x.com)".

(** A prompt whose option block holds the two entries and nothing else. *)
Definition two_option_prompt : string :=
  "Multiple contacts found for Jane. Please select one or more by number"
  ++ nl ++ "1. Jane Doe (jane@x.com)"
  ++ nl ++ "2. Jane Roe (jane2@x.com)".

(** A prompt with an entry that lacks the delimiter between two that have
    it. *)
Definition gap_prompt : string :=
  "Multiple contacts found for Bob. Please select one or more by number"
  ++ nl ++ "1. Bob Ash (ash@x.com)"
  ++ nl ++ "Bob Birch (birch@x.com)"
  ++ nl ++ "3. Bob Cole (cole@x.com)".

(** A prompt in which the marker occurs a second time, inside an entry. *)
Definition twice_prompt : string :=
  "Multiple contacts found for Ann. Please select one or more by number"
  ++ nl ++ "1. Ann (Please select one or more by number) Lee"
  ++ nl ++ "2. Ann Poe".

(** Two bot messages that carry markup: one with the shape of an email
    mention, one a selection prompt. *)
Definition markup_mention : string :=
  "<img src=x onerror=alert(1)> (a@b.co)".

Definition markup_prompt : string :=
  "Multiple contacts found for <b>Jo</b>. Please select one or more by number"
  ++ nl ++ "1. <i>Jo</i>".

(** A response of the backend that carries only a text. *)
Definition text_response (status : nat) (text : string) : fetch_result :=
  Responded status
            (Some {| response := JStr text; entities := []; complete := false |}).

(** The page after the backend has answered with the two-option prompt. *)
Definition two_option_page (cancel_restores : bool) : state :=
  run cancel_restores initial
      [MessageSettled (text_response 200 two_option_prompt)].

(** The page with one message under way: the user has typed a text and
    submitted it. *)
Definition awaiting_page : state :=
  on_submit (with_input initial "hi").

(** No option of the document is checked and none of their ids is in the
    selection set. *)
Definition none_selected (st : state) : Prop :=
  Forall (fun o => checked o = false) (rendered_options st) /\
  forall id, In id (rendered_ids st) -> ~ In id (selectedOptions st).

(** [x] is not selected in [st] and is selected in [st']. *)
Definition entered (st st' : state) (x : string) : bool :=
  negb (StrSet.has x (selectedOptions st)) && StrSet.has x (selectedOptions st').

(** For each id, the time of the last event of a run that brought it into
    the selection set.  The run starts in [st] at time [now]; [stamp] holds
    the times recorded so far. *)
Fixpoint last_entered (cancel_restores : bool) (evs : list event) (st : state)
         (now : nat) (stamp : string -> nat) : string -> nat :=
  match evs with
  | [] => stamp
  | ev :: rest =>
      let st' := step cancel_restores st ev in
      last_entered cancel_restores rest st' (S now)
                   (fun x => if entered st st' x then S now else stamp x)
  end.

(** How one callback can change the selection set [s] into [s'] when the
    options on the page carry the ids [ids]. *)
Inductive sel_change (ids : list string) (s : StrSet.t) : StrSet.t -> Prop :=
| sel_same : sel_change ids s s
| sel_add (n : string) : In n ids -> sel_change ids s (StrSet.add n s)
| sel_delete (n : string) : sel_change ids s (StrSet.delete n s)
| sel_add_all : sel_change ids s (fold_left (fun acc id => StrSet.add id acc) ids s)
| sel_delete_all : sel_change ids s (fold_left (fun acc id => StrSet.delete id acc) ids s)
| sel_clear : sel_change ids s [].

(* ===================================================================== *)
(** ** Vocabulary of the further properties *)
(* ===================================================================== *)

(** Every code unit of [s] satisfies [p]. *)
Fixpoint all_chars (p : ascii -> bool) (s : string) : bool :=
  match s with
  | EmptyString => true
  | String c r => p c && all_chars p r
  end.

(** The code units the serialisation of a text node rewrites. *)
Definition needs_escape (c : ascii) : bool :=
  Ascii.eqb c "&" || Ascii.eqb c "<" || Ascii.eqb c ">" || Nat.eqb (code c) 160.

(** The turns of a transcript: who speaks and the markup shown, in order;
    a typing indicator is no turn. *)
Inductive role : Type := User | Bot.

Definition turn_of (e : element) : list (role * string) :=
  match e with
  | UserMessage h => [(User, h)]
  | BotMessage h _ => [(Bot, h)]
  | TypingIndicator => []
  end.

Definition turns (c : list element) : list (role * string) :=
  flat_map turn_of c.



Definition is_click (ev : event) : bool :=
  match ev with
  | Click _ => true
  | _ => false
  end.

(** The continuation of a message call that was answered with a JSON
    body. *)
Definition is_message_answer (ev : event) : bool :=
  match ev with
  | MessageSettled (Responded _ (Some _)) => true
  | _ => false
  end.



(** A click on the text of the [i]-th option: the click itself, then the
    click the label forwards to its checkbox. *)
Definition text_click (i : nat) : list event :=
  [Click (OptionBody i); Click (OptionCheckbox i)].

Definition is_mark (i : panel_item) : bool :=
  match i with
  | CompleteMark => true
  | EntityGroup _ _ => false
  end.


(** What it means for a text [w] to match a pattern, read off the pattern
    alone: [cs] are the captures before the match and [cs'] the captures
    after it. *)
Fixpoint parses (r : Regex.regex) (w : string) (cs cs' : Regex.captures) : Prop :=
  match r with
  | Regex.Lit c => w = String c EmptyString /\ cs' = cs
  | Regex.Rep p min => all_chars p w = true /\ min <= String.length w /\ cs' = cs
  | Regex.Cat a b =>
      exists u v cm, w = u ++ v /\ parses a u cs cm /\ parses b v cm cs'
  | Regex.Group n g => exists cg, parses g w cs cg /\ cs' = (n, w) :: cg
  end.

(** A name, white space and a parenthesised address, as the mention
    pattern of [formatEmailSelectionMessage] wants them. *)
Definition is_mention (name ws addr : string) : Prop :=
  all_chars Regex.name_class name = true /\ name <> EmptyString /\
  all_chars is_space ws = true /\ ws <> EmptyString /\
  exists loc domain tld,
    addr = loc ++ "@" ++ domain ++ "." ++ tld /\
    all_chars Regex.local_class loc = true /\ loc <> EmptyString /\
    all_chars Regex.domain_class domain = true /\ domain <> EmptyString /\
    all_chars is_alpha tld = true /\ 2 <= String.length tld.

(** The address of a mention. *)
Definition is_address (addr : string) : Prop :=
  exists loc domain tld,
    addr = loc ++ "@" ++ domain ++ "." ++ tld /\
    all_chars Regex.local_class loc = true /\ loc <> EmptyString /\
    all_chars Regex.domain_class domain = true /\ domain <> EmptyString /\
    all_chars is_alpha tld = true /\ 2 <= String.length tld.

(** A mention stands at the head of [s]. *)
Definition mention_starts (s : string) : Prop :=
  exists name ws addr rest,
    is_mention name ws addr /\ s = name ++ ws ++ "(" ++ addr ++ ")" ++ rest.

(** [out] is [s] with its mentions replaced by their two spans, reading
    from the left.  Where a mention starts, the name takes everything up
    to the last white-space character before the parenthesis, the mention
    is replaced and reading resumes after its closing parenthesis.  A
    code unit at which no mention starts is kept and reading resumes after
    it. *)
Inductive mentions_marked : string -> string -> Prop :=
| marked_end : mentions_marked EmptyString EmptyString
| marked_keep (c : ascii) (s out : string) :
    ~ mention_starts (String c s) ->
    mentions_marked s out -> mentions_marked (String c s) (String c out)
| marked_mention (name ws addr s out : string) :
    is_mention name ws addr ->
    String.length ws = 1 ->
    mentions_marked s out ->
    mentions_marked (name ++ ws ++ "(" ++ addr ++ ")" ++ s)
                    (mention_markup [(2, addr); (1, name)] ++ out).

(** The mention pattern after its first group. *)
Definition tail_re : Regex.regex :=
  Regex.seq_of
    [ Regex.Rep is_space 1;
      Regex.Lit "(";
      Regex.Group 2
        (Regex.seq_of [Regex.Rep Regex.local_class 1; Regex.Lit "@";
                       Regex.Rep Regex.domain_class 1; Regex.Lit "."]
                      (Regex.Rep is_alpha 2)) ]
    (Regex.Lit ")").

Definition not_paren (c : ascii) : bool := negb (Ascii.eqb c ")").

(** An entry of an option block as the backend writes it, and a block of
    such entries, one per line. *)
Definition entry_text (e : string * string) : string :=
  fst e ++ ". " ++ snd e.

Definition block_text (entries : list (string * string)) : string :=
  join nl (map entry_text entries).

(** An id without white space or full stop, and details on one line that
    do not hold the delimiter and do not end with white space. *)
Definition plain_id (number : string) : Prop :=
  number <> EmptyString /\
  all_chars (fun c => negb (is_space c) && negb (Ascii.eqb c ".")) number = true.

Definition plain_details (details : string) : Prop :=
  details <> EmptyString /\
  all_chars (fun c => negb (Ascii.eqb c "010")) details = true /\
  includes details ". " = false /\
  trimEnd details = details.

(* ===================================================================== *)
(** ** Facts about the string primitives *)
(* ===================================================================== *)

Module JSFacts.

Lemma append_nil_r (s : string) : s ++ EmptyString = s.
Proof. induction s as [|c s IH]; simpl; [reflexivity | now rewrite IH]. Qed.

Lemma append_assoc (a b c : string) : (a ++ b) ++ c = a ++ (b ++ c).
Proof. induction a as [|x a IH]; simpl; [reflexivity | now rewrite IH]. Qed.

Lemma length_append (a b : string) :
  String.length (a ++ b) = String.length a + String.length b.
Proof. induction a as [|x a IH]; simpl; [reflexivity | now rewrite IH]. Qed.

Lemma drop_append (a b : string) : drop (String.length a) (a ++ b) = b.
Proof. induction a as [|x a IH]; simpl; [now destruct b | exact IH]. Qed.

Lemma prefix_append (p r : string) : prefix p (p ++ r) = true.
Proof.
  induction p as [|x p IH]; simpl.
  - now destruct r.
  - destruct (ascii_dec x x) as [_|n]; [exact IH | now elim n].
Qed.

Lemma prefix_inv (p s : string) :
  prefix p s = true -> s = p ++ drop (String.length p) s.
Proof.
  revert s; induction p as [|x p IH]; intros s H; simpl.
  - now destruct s.
  - destruct s as [|y s]; simpl in H; [discriminate|].
    destruct (ascii_dec x y) as [->|_]; [|discriminate].
    simpl. f_equal. now apply IH.
Qed.

Lemma break_at_sound (sep s a b : string) :
  break_at sep s = Some (a, b) -> s = a ++ sep ++ b.
Proof.
  revert a b; induction s as [|c s IH]; intros a b H.
  - cbn [break_at] in H. destruct (prefix sep EmptyString) eqn:P; [|discriminate].
    cbv iota in H. injection H as <- <-. simpl. now apply prefix_inv.
  - cbn [break_at] in H. destruct (prefix sep (String c s)) eqn:P.
    + cbv iota in H. injection H as <- <-. simpl. now apply prefix_inv.
    + cbv iota in H.
      destruct (break_at sep s) as [[a0 b0]|] eqn:B; [|discriminate].
      injection H as <- <-. simpl. f_equal. now apply IH.
Qed.

Lemma break_at_here (sep s : string) :
  prefix sep s = true ->
  break_at sep s = Some (EmptyString, drop (String.length sep) s).
Proof. intros P. destruct s; cbn [break_at]; now rewrite P. Qed.

Lemma break_at_later (sep : string) (c : ascii) (s : string) :
  prefix sep (String c s) = false ->
  break_at sep (String c s) =
  match break_at sep s with
  | Some (a, b) => Some (String c a, b)
  | None => None
  end.
Proof. intros P. cbn [break_at]. now rewrite P. Qed.

Lemma break_at_complete (sep a b : string) :
  exists a0 b0, break_at sep (a ++ sep ++ b) = Some (a0, b0) /\
                String.length a0 <= String.length a.
Proof.
  induction a as [|c a (a0 & b0 & IH & L)].
  - exists EmptyString, b. cbn [append]. split; [|simpl; lia].
    rewrite break_at_here by apply prefix_append.
    now rewrite drop_append.
  - cbn [append].
    destruct (prefix sep (String c (a ++ sep ++ b))) eqn:P.
    + rewrite break_at_here by assumption.
      eexists _, _. split; [reflexivity | simpl; lia].
    + rewrite break_at_later by assumption. rewrite IH.
      eexists _, _. split; [reflexivity | simpl; lia].
Qed.

Lemma break_at_first (sep s a b : string) :
  break_at sep s = Some (a, b) -> first_split sep s a b.
Proof.
  intros H. split; [now apply break_at_sound|].
  intros a' b' E. subst s.
  destruct (break_at_complete sep a' b') as (a0 & b0 & B & L).
  rewrite B in H. injection H as <- <-. exact L.
Qed.

Lemma includes_spec (s needle : string) :
  includes s needle = true <-> contains needle s.
Proof.
  unfold includes, contains. split.
  - destruct (break_at needle s) as [[a b]|] eqn:B; [|discriminate].
    intros _. exists a, b. now apply break_at_sound.
  - intros (a & b & ->).
    destruct (break_at_complete needle a b) as (a0 & b0 & B & _).
    now rewrite B.
Qed.

Lemma includes_false (s needle : string) :
  includes s needle = false <-> ~ contains needle s.
Proof.
  rewrite <- includes_spec. destruct (includes s needle); split; congruence.
Qed.

Lemma break_at_empty (sep : string) :
  sep <> EmptyString -> break_at sep EmptyString = None.
Proof. destruct sep; [intros H; now elim H | reflexivity]. Qed.

Lemma break_at_shorter (sep s a b : string) :
  sep <> EmptyString -> break_at sep s = Some (a, b) ->
  String.length b < String.length s.
Proof.
  intros Hsep B. apply break_at_sound in B. subst s.
  rewrite !length_append. destruct sep; [now elim Hsep | simpl; lia].
Qed.

(** With a non-empty separator the fuel of [split] never runs out: any
    two amounts that cover the length of the text give the same pieces. *)
Lemma split_fuel_enough (sep : string) :
  sep <> EmptyString ->
  forall f1 f2 s, String.length s <= f1 -> String.length s <= f2 ->
    split_fuel f1 sep s = split_fuel f2 sep s.
Proof.
  intros Hsep f1. induction f1 as [|f1 IH]; intros f2 s L1 L2.
  - destruct s; [|simpl in L1; lia].
    destruct f2; [reflexivity|]. cbn [split_fuel].
    now rewrite break_at_empty.
  - destruct f2 as [|f2].
    + destruct s; [|simpl in L2; lia]. cbn [split_fuel].
      now rewrite break_at_empty.
    + cbn [split_fuel]. destruct (break_at sep s) as [[a b]|] eqn:B; [|reflexivity].
      pose proof (break_at_shorter _ _ _ _ Hsep B).
      f_equal. apply IH; lia.
Qed.

(** [split] cuts at the first occurrence and goes on with what follows. *)
Lemma split_unfold (sep s : string) :
  sep <> EmptyString ->
  split s sep =
  match break_at sep s with
  | None => [s]
  | Some (a, b) => a :: split b sep
  end.
Proof.
  intros Hsep. unfold split. destruct (String.length s) as [|n] eqn:E.
  - destruct s; [|discriminate]. now rewrite break_at_empty.
  - cbn [split_fuel]. destruct (break_at sep s) as [[a b]|] eqn:B; [|reflexivity].
    pose proof (break_at_shorter _ _ _ _ Hsep B).
    f_equal. apply split_fuel_enough; [assumption | lia | lia].
Qed.

End JSFacts.

(* ===================================================================== *)
(** ** The prompt classifier and the widget builder *)
(* ===================================================================== *)

Module FormatFacts.
Import JSFacts.

Lemma select_marker_nonempty : select_marker <> EmptyString.
Proof. discriminate. Qed.

Lemma delimiter_nonempty : ". " <> EmptyString.
Proof. discriminate. Qed.

Lemma split_two_pieces (sep s a b : string) :
  sep <> EmptyString -> break_at sep s = Some (a, b) ->
  exists more, split s sep = a :: second_piece sep b :: more.
Proof.
  intros Hsep B. rewrite (split_unfold sep s Hsep), B.
  rewrite (split_unfold sep b Hsep). unfold second_piece.
  destruct (break_at sep b) as [[mid tail]|]; eexists; reflexivity.
Qed.

(** In the first branch both destructured names are bound. *)
Lemma selection_parts_bound (message : string) :
  is_selection_prompt message = true ->
  exists intro rest,
    break_at select_marker message = Some (intro, rest) /\
    selection_parts message =
    (Some intro, Some (second_piece select_marker rest)).
Proof.
  unfold is_selection_prompt. intros H.
  apply andb_true_iff in H as [_ H]. unfold includes in H.
  destruct (break_at select_marker message) as [[intro rest]|] eqn:B;
    [|discriminate].
  exists intro, rest. split; [reflexivity|].
  destruct (split_two_pieces _ _ _ _ select_marker_nonempty B) as [more E].
  unfold selection_parts. now rewrite E.
Qed.

(** An entry without the delimiter is one piece: its [number] is the
    whole entry and its [details] are not bound. *)
Lemma parse_option_undelimited (entry : string) :
  includes entry ". " = false ->
  parse_option entry = (Some entry, None).
Proof.
  unfold includes, parse_option, split_limit. intros H.
  rewrite (split_unfold _ entry delimiter_nonempty).
  now destruct (break_at ". " entry).
Qed.

(** An entry with the delimiter: the [number] is what precedes its first
    occurrence, the [details] stop at the next occurrence. *)
Lemma parse_option_delimited (entry number rest : string) :
  break_at ". " entry = Some (number, rest) ->
  parse_option entry = (Some number, Some (second_piece ". " rest)).
Proof.
  intros B. unfold parse_option, split_limit.
  destruct (split_two_pieces _ _ _ _ delimiter_nonempty B) as [more E].
  now rewrite E.
Qed.

(** Every entry of the option block has a [number]. *)
Lemma parse_option_number (entry : string) :
  exists number, fst (parse_option entry) = Some number.
Proof.
  destruct (break_at ". " entry) as [[number rest]|] eqn:B.
  - rewrite (parse_option_delimited _ _ _ B). now eexists.
  - rewrite parse_option_undelimited; [now eexists|].
    unfold includes. now rewrite B.
Qed.

Lemma fold_append_option (entries : list string) (acc : string) :
  fold_left append_option entries acc =
  acc ++ String.concat EmptyString
             (map (fun entry =>
                     option_button (interpolate (fst (parse_option entry)))
                                   (interpolate (snd (parse_option entry))))
                  entries).
Proof.
  revert acc. induction entries as [|e es IH]; intros acc; cbn [fold_left map String.concat].
  - now rewrite append_nil_r.
  - rewrite IH. unfold append_option.
    destruct (parse_option e) as [number details]. cbn [fst snd].
    rewrite append_assoc. f_equal.
    destruct es; cbn [map String.concat append]; [now rewrite append_nil_r | reflexivity].
Qed.

(** The widget builder writes one button per entry of the option block,
    whatever the entry looks like, then the two aggregate controls. *)
Lemma formattedOptions_buttons (optionsText : string) :
  formattedOptions optionsText =
  ("<div class=" ++ dq ++ "grid gap-2 mt-2" ++ dq ++ ">")
  ++ String.concat EmptyString
       (map (fun entry =>
               option_button (interpolate (fst (parse_option entry)))
                             (interpolate (snd (parse_option entry))))
            (option_lines optionsText))
  ++ aggregate_controls ++ "</div>".
Proof.
  unfold formattedOptions. rewrite fold_append_option.
  now rewrite append_assoc.
Qed.

Lemma option_ids_lines (message optionsText : string) :
  is_selection_prompt message = true ->
  snd (selection_parts message) = Some optionsText ->
  List.length (option_ids message) = List.length (option_lines optionsText).
Proof.
  intros S P. unfold option_ids. rewrite S, P. apply length_map.
Qed.

(** No entry is dropped: an entry without the delimiter becomes an
    option control whose id is the entry itself. *)
Lemma undelimited_line_kept (message optionsText entry : string) :
  is_selection_prompt message = true ->
  snd (selection_parts message) = Some optionsText ->
  In entry (option_lines optionsText) ->
  includes entry ". " = false ->
  In entry (option_ids message).
Proof.
  intros S P I D. unfold option_ids. rewrite S, P.
  apply in_map_iff. exists entry. split; [|assumption].
  now rewrite parse_option_undelimited.
Qed.

(** The markup of a selection prompt, read off the option controls: the
    intro paragraph, one button per control carrying its id and details,
    and the two aggregate controls once. *)
Lemma widget_markup (message : string) :
  is_selection_prompt message = true ->
  exists intro,
    fst (selection_parts message) = Some intro /\
    List.length (option_ids message) = List.length (option_details message) /\
    formatEmailSelectionMessage message =
      formattedIntro intro
      ++ ("<div class=" ++ dq ++ "grid gap-2 mt-2" ++ dq ++ ">")
      ++ String.concat EmptyString
           (map (fun '(number, details) => option_button number details)
                (combine (option_ids message) (option_details message)))
      ++ aggregate_controls ++ "</div>".
Proof.
  intros S. destruct (selection_parts_bound message S) as (intro & rest & _ & P).
  exists intro. unfold formatEmailSelectionMessage, option_ids, option_details.
  rewrite S, P. cbn [fst snd interpolate].
  split; [reflexivity|]. split; [now rewrite !length_map|].
  rewrite formattedOptions_buttons.
  assert (zip : forall (f g : string -> string) (l : list string),
             map (fun '(number, details) => option_button number details)
                 (combine (map f l) (map g l)) =
             map (fun entry => option_button (f entry) (g entry)) l).
  { intros f g l. induction l as [|e l IH]; [reflexivity|].
    cbn [map combine]. now rewrite IH. }
  now rewrite zip.
Qed.

(** A message that is neither a selection prompt nor shaped like an
    email mention is rendered as its escaped text and nothing else. *)
Lemma plain_message_escaped (message : string) :
  is_selection_prompt message = false ->
  has_email_shape message = false ->
  formatEmailSelectionMessage message = escapeHtml message /\
  option_ids message = [].
Proof.
  intros S E. unfold formatEmailSelectionMessage, option_ids.
  now rewrite S, E.
Qed.

(** The escaped text has no markup character left. *)
Lemma escapeHtml_no_markup (html : string) (c : ascii) :
  c = "<"%char \/ c = ">"%char ->
  In c (list_ascii_of_string (escapeHtml html)) -> False.
Proof.
  intros Hc. induction html as [|d s IH]; cbn [escapeHtml].
  - intros [].
  - unfold escape_char.
    destruct (Ascii.eqb d "&") eqn:E1;
      [|destruct (Ascii.eqb d "<") eqn:E2;
        [|destruct (Ascii.eqb d ">") eqn:E3;
          [|destruct (Nat.eqb (code d) 160) eqn:E4]]];
      cbn [append list_ascii_of_string In]; intros H;
      repeat (destruct H as [H|H];
              [destruct Hc; subst; try discriminate|]); try now apply IH.
Qed.

End FormatFacts.

(* ===================================================================== *)
(** ** The selection set and the option controls *)
(* ===================================================================== *)

Module SetFacts.

Lemma has_In (x : string) (s : StrSet.t) : StrSet.has x s = true <-> In x s.
Proof.
  unfold StrSet.has. rewrite existsb_exists. split.
  - intros (y & I & E). apply String.eqb_eq in E. now subst.
  - intros I. exists x. split; [assumption | apply String.eqb_refl].
Qed.

Lemma has_not_In (x : string) (s : StrSet.t) : StrSet.has x s = false <-> ~ In x s.
Proof.
  rewrite <- has_In. destruct (StrSet.has x s); split; congruence.
Qed.

Lemma add_In (x y : string) (s : StrSet.t) :
  In y (StrSet.add x s) <-> In y s \/ y = x.
Proof.
  unfold StrSet.add. destruct (StrSet.has x s) eqn:H.
  - apply has_In in H. split; [now left | intros [I| ->]; assumption].
  - rewrite in_app_iff. simpl. intuition congruence.
Qed.

Lemma delete_In (x y : string) (s : StrSet.t) :
  In y (StrSet.delete x s) <-> In y s /\ y <> x.
Proof.
  unfold StrSet.delete. rewrite filter_In, negb_true_iff, String.eqb_neq.
  intuition congruence.
Qed.

Lemma add_NoDup (x : string) (s : StrSet.t) : NoDup s -> NoDup (StrSet.add x s).
Proof.
  intros N. unfold StrSet.add. destruct (StrSet.has x s) eqn:H; [assumption|].
  apply has_not_In in H. apply NoDup_app; [assumption | repeat constructor; intros [] |].
  intros a I [<-|[]]. now apply H.
Qed.

Lemma delete_NoDup (x : string) (s : StrSet.t) : NoDup s -> NoDup (StrSet.delete x s).
Proof. apply NoDup_filter. Qed.

Lemma add_all_In (ids : list string) (s : StrSet.t) (y : string) :
  In y (fold_left (fun acc id => StrSet.add id acc) ids s) <-> In y s \/ In y ids.
Proof.
  revert s. induction ids as [|i ids IH]; intros s; cbn [fold_left].
  - simpl. tauto.
  - rewrite IH, add_In. simpl. intuition congruence.
Qed.

Lemma delete_all_In (ids : list string) (s : StrSet.t) (y : string) :
  In y (fold_left (fun acc id => StrSet.delete id acc) ids s) <->
  In y s /\ ~ In y ids.
Proof.
  revert s. induction ids as [|i ids IH]; intros s; cbn [fold_left].
  - simpl. tauto.
  - rewrite IH, delete_In. simpl. intuition congruence.
Qed.

(** Adding puts the new members after the old ones, which stay as they
    are. *)
Lemma add_all_appends (ids : list string) (s : StrSet.t) :
  exists added,
    fold_left (fun acc id => StrSet.add id acc) ids s = (s ++ added)%list /\
    forall x, In x added -> ~ In x s.
Proof.
  revert s. induction ids as [|i ids IH]; intros s; cbn [fold_left].
  - exists []. split; [now rewrite app_nil_r | intros x []].
  - destruct (IH (StrSet.add i s)) as (added & E & D). rewrite E.
    unfold StrSet.add in *. destruct (StrSet.has i s) eqn:H.
    + exists added. split; [reflexivity | exact D].
    + apply has_not_In in H. exists (i :: added). split.
      * now rewrite <- app_assoc.
      * intros x [<-|I]; [assumption|].
        intros Hx. apply (D x I). apply in_app_iff. now left.
Qed.

(** Deleting keeps the remaining members in their order. *)
Lemma delete_all_filters (ids : list string) (s : StrSet.t) :
  fold_left (fun acc id => StrSet.delete id acc) ids s =
  filter (fun x => negb (StrSet.has x ids)) s.
Proof.
  revert s. induction ids as [|i ids IH]; intros s; cbn [fold_left].
  - induction s as [|x s IHs]; [reflexivity|].
    cbn [filter StrSet.has existsb negb]. now f_equal.
  - rewrite IH. unfold StrSet.delete.
    induction s as [|x s IHs]; [reflexivity|]. cbn [filter StrSet.has existsb].
    rewrite (String.eqb_sym x i).
    destruct (String.eqb i x); cbn [negb orb filter]; [exact IHs|].
    fold (StrSet.has x ids).
    destruct (StrSet.has x ids); cbn [negb]; [exact IHs | now rewrite IHs].
Qed.

Lemma sel_change_NoDup (ids : list string) (s s' : StrSet.t) :
  sel_change ids s s' -> NoDup s -> NoDup s'.
Proof.
  intros [ |n I|n| | | ] N;
    [assumption | now apply add_NoDup | now apply delete_NoDup | | | constructor].
  - clear -N. revert s N. induction ids as [|i ids IH]; intros s N; cbn [fold_left];
      [assumption | apply IH; now apply add_NoDup].
  - rewrite delete_all_filters. now apply NoDup_filter.
Qed.

(** Whatever the callback, a member of the new set was a member before or
    is the id of an option on the page. *)
Lemma sel_change_incl (ids : list string) (s s' : StrSet.t) :
  sel_change ids s s' -> forall x, In x s' -> In x s \/ In x ids.
Proof.
  intros [ |n I|n| | | ] x H.
  - now left.
  - apply add_In in H as [H| ->]; [now left | now right].
  - apply delete_In in H. now left.
  - now apply add_all_In in H.
  - apply delete_all_In in H. now left.
  - destruct H.
Qed.

(** Whatever the callback, the members that stay keep their order and
    the members that come in are placed after them. *)
Lemma sel_change_order (ids : list string) (s s' : StrSet.t) :
  sel_change ids s s' ->
  exists added,
    s' = (filter (fun x => StrSet.has x s') s ++ added)%list /\
    forall x, In x added -> ~ In x s.
Proof.
  assert (keep_all : forall (l extra : StrSet.t),
             filter (fun x => StrSet.has x (l ++ extra)%list) l = l).
  { intros l extra. apply forallb_filter_id. apply forallb_forall.
    intros x I. apply has_In. apply in_app_iff. now left. }
  assert (keep_self : forall (l : StrSet.t),
             filter (fun x => StrSet.has x l) l = l).
  { intros l. apply forallb_filter_id. apply forallb_forall.
    intros x I. now apply has_In. }
  assert (keep_some : forall (p : string -> bool) (l : StrSet.t),
             filter (fun x => StrSet.has x (filter p l)) l = filter p l).
  { intros p l. apply filter_ext_in. intros x I.
    destruct (p x) eqn:P.
    - apply has_In. apply filter_In. now split.
    - apply has_not_In. rewrite filter_In. intros [_ Q]. congruence. }
  intros [ |n I|n| | | ].
  - exists []. rewrite app_nil_r. split; [|intros x []].
    now rewrite keep_self.
  - unfold StrSet.add. destruct (StrSet.has n s) eqn:H.
    + exists []. rewrite app_nil_r. split; [|intros x []].
      now rewrite keep_self.
    + exists [n]. rewrite keep_all. split; [reflexivity|].
      intros x [<-|[]]. now apply has_not_In.
  - exists []. rewrite app_nil_r. split; [|intros x []].
    unfold StrSet.delete. now rewrite keep_some.
  - destruct (add_all_appends ids s) as (added & E & D).
    exists added. rewrite E, keep_all. now split.
  - exists []. rewrite app_nil_r. split; [|intros x []].
    rewrite delete_all_filters. now rewrite keep_some.
  - exists []. split; [|intros x []].
    induction s as [|x s IH]; [reflexivity | exact IH].
Qed.

End SetFacts.

(* ===================================================================== *)
(** ** The page under the callbacks *)
(* ===================================================================== *)

Module PageFacts.
Import SetFacts.

Lemma update_ctl_app_l (i : nat) (f : option_ctl -> option_ctl)
      (a b : list option_ctl) :
  i < List.length a ->
  update_ctl i f (a ++ b)%list = (update_ctl i f a ++ b)%list.
Proof.
  revert i. induction a as [|x a IH]; intros i L; simpl in L; [lia|].
  destruct i; simpl; [reflexivity|]. f_equal. apply IH. lia.
Qed.

Lemma update_ctl_app_r (i : nat) (f : option_ctl -> option_ctl)
      (a b : list option_ctl) :
  List.length a <= i ->
  update_ctl i f (a ++ b)%list = (a ++ update_ctl (i - List.length a) f b)%list.
Proof.
  revert i. induction a as [|x a IH]; intros i L; simpl in *.
  - now rewrite Nat.sub_0_r.
  - destruct i; [lia|]. simpl. f_equal. apply IH. lia.
Qed.

Lemma update_ctl_ids (i : nat) (f : option_ctl -> option_ctl)
      (l : list option_ctl) :
  (forall o, data_number (f o) = data_number o) ->
  map data_number (update_ctl i f l) = map data_number l.
Proof.
  intros F. revert i. induction l as [|x l IH]; intros i; [reflexivity|].
  destruct i; simpl; [now rewrite F | now rewrite IH].
Qed.

Lemma update_ctl_nth (i : nat) (f : option_ctl -> option_ctl)
      (l : list option_ctl) (o : option_ctl) :
  nth_error l i = Some o -> nth_error (update_ctl i f l) i = Some (f o).
Proof.
  revert i. induction l as [|x l IH]; intros i H; destruct i; simpl in *;
    try discriminate; [now injection H as -> | now apply IH].
Qed.

Lemma options_update (i : nat) (f : option_ctl -> option_ctl) (c : list element) :
  flat_map controls_of (update_option i f c) =
  update_ctl i f (flat_map controls_of c).
Proof.
  revert i. induction c as [|e c IH]; intros i; [reflexivity|].
  destruct e as [h|h cs|]; cbn [update_option flat_map controls_of app].
  - apply IH.
  - destruct (Nat.ltb i (List.length cs)) eqn:L.
    + apply Nat.ltb_lt in L. cbn [flat_map controls_of].
      now rewrite update_ctl_app_l.
    + apply Nat.ltb_ge in L. cbn [flat_map controls_of].
      now rewrite update_ctl_app_r, IH.
  - apply IH.
Qed.

Lemma options_map (f : option_ctl -> option_ctl) (c : list element) :
  flat_map controls_of (map_options f c) = map f (flat_map controls_of c).
Proof.
  induction c as [|e c IH]; [reflexivity|].
  destruct e as [h|h cs|]; cbn [map_options map flat_map controls_of app];
    fold (map_options f c); rewrite ?map_app; now rewrite IH.
Qed.

Lemma options_remove_typing (c : list element) :
  flat_map controls_of (remove_first_typing c) = flat_map controls_of c.
Proof.
  induction c as [|e c IH]; [reflexivity|].
  destruct e; cbn [remove_first_typing flat_map controls_of app];
    [exact IH | now rewrite IH | reflexivity].
Qed.

Lemma with_selected_same (st : state) : with_selected st (selectedOptions st) = st.
Proof. now destruct st. Qed.

(** The loop of the select-all branch touches the selection set only. *)
Lemma fold_record_choice (b : bool) (cbs : list option_ctl) (st : state) :
  fold_left (fun acc cb => record_choice b (data_number cb) acc) cbs st =
  with_selected st
    (fold_left (fun s id => if b then StrSet.add id s else StrSet.delete id s)
               (map data_number cbs) (selectedOptions st)).
Proof.
  revert st. induction cbs as [|cb cbs IH]; intros st; cbn [fold_left map].
  - now rewrite with_selected_same.
  - rewrite IH. now destruct b.
Qed.

Lemma select_all_options (st : state) :
  rendered_options (on_select_all st) =
  map (set_checked (negb (forallb checked (rendered_options st))))
      (rendered_options st).
Proof.
  unfold on_select_all. rewrite fold_record_choice.
  unfold rendered_options. cbn [chat with_selected with_chat].
  apply options_map.
Qed.

Lemma select_all_selected (st : state) :
  selectedOptions (on_select_all st) =
  if forallb checked (rendered_options st)
  then fold_left (fun s id => StrSet.delete id s) (rendered_ids st) (selectedOptions st)
  else fold_left (fun s id => StrSet.add id s) (rendered_ids st) (selectedOptions st).
Proof.
  unfold on_select_all. rewrite fold_record_choice.
  cbn [selectedOptions with_selected with_chat]. unfold rendered_ids.
  now destruct (forallb checked (rendered_options st)).
Qed.

Lemma select_all_rest (st : state) :
  requests (on_select_all st) = requests st /\
  alerts (on_select_all st) = alerts st /\
  inputValue (on_select_all st) = inputValue st /\
  entityDisplay (on_select_all st) = entityDisplay st /\
  entityPanelHidden (on_select_all st) = entityPanelHidden st.
Proof. unfold on_select_all. rewrite fold_record_choice. now repeat split. Qed.

Lemma addBotMessage_value_selected (v : jsval) (st st' : state) :
  addBotMessage_value v st = Normal st' ->
  selectedOptions st' = selectedOptions st /\
  requests st' = requests st /\
  exists e, chat st' = (chat st ++ [e])%list.
Proof.
  unfold addBotMessage_value. intros H.
  destruct v; try discriminate;
    try (injection H as <-; repeat split; eexists; reflexivity).
  destruct (formatEmailSelectionMessage_value (JArr items)); [|discriminate].
  injection H as <-. repeat split. eexists; reflexivity.
Qed.

(** The panel refresh, however it ends, touches the panel only. *)
Lemma updateEntityPanel_view_keeps (es : list (string * entity_value))
      (b : bool) (st : state) :
  chat (outcome_state (updateEntityPanel_view es b st)) = chat st /\
  selectedOptions (outcome_state (updateEntityPanel_view es b st)) =
    selectedOptions st /\
  requests (outcome_state (updateEntityPanel_view es b st)) = requests st /\
  inputValue (outcome_state (updateEntityPanel_view es b st)) = inputValue st /\
  alerts (outcome_state (updateEntityPanel_view es b st)) = alerts st.
Proof.
  unfold updateEntityPanel_view.
  destruct es as [|e es]; [now repeat split|].
  destruct (walk_entries (e :: es) []) as [shown [|]]; now repeat split.
Qed.

Lemma strings_of_map (vs : list string) : strings_of (map JStr vs) = Some vs.
Proof.
  induction vs as [|v vs IH]; [reflexivity|].
  cbn [map strings_of]. now rewrite IH.
Qed.

Lemma walk_typed (es : list (string * list string)) :
  forall shown,
    walk_entries (typed_entities es) shown = ((shown ++ entity_groups es)%list, false).
Proof.
  induction es as [|[type values] es IH]; intros shown.
  - cbn. now rewrite app_nil_r.
  - cbn [typed_entities map walk_entries entity_groups flat_map].
    fold (typed_entities es). fold (entity_groups es).
    destruct values as [|v values].
    + cbn [map entity_round]. rewrite IH. now rewrite app_nil_r.
    + unfold entity_round.
      change (map JStr (v :: values)) with (JStr v :: map JStr values).
      change (strings_of (JStr v :: map JStr values))
        with (strings_of (map JStr (v :: values))).
      rewrite strings_of_map, IH. now rewrite <- app_assoc.
Qed.

(** On entities of the types of the backend contract the panel refresh
    never throws and is [updateEntityPanel]. *)
Lemma updateEntityPanel_typed (es : list (string * list string)) (b : bool)
      (st : state) :
  updateEntityPanel_view (typed_entities es) b st =
  Finished (updateEntityPanel (Some es) b st).
Proof.
  destruct es as [|e es]; [reflexivity|].
  unfold updateEntityPanel_view, updateEntityPanel.
  rewrite walk_typed. destruct e as [type values]. reflexivity.
Qed.


Lemma reset_settled_selected (r : fetch_result) (st : state) :
  selectedOptions (reset_settled r st) = selectedOptions st.
Proof.
  unfold reset_settled. destruct r as [|status [data|]]; try reflexivity.
  destruct (addBotMessage_value _ _) as [st2|] eqn:A; [|reflexivity].
  apply addBotMessage_value_selected in A as (S1 & _).
  cbn [selectedOptions with_panel]. now rewrite S1.
Qed.

(** What every callback does to the selection set. *)
Lemma step_sel_change (cr : bool) (st : state) (ev : event) :
  sel_change (rendered_ids st) (selectedOptions st)
             (selectedOptions (step cr st ev)).
Proof.
  destruct ev as [v| |c|r|r|t]; cbn [step].
  - constructor.
  - unfold on_submit. destruct (String.eqb _ _); constructor.
  - destruct c; constructor.
  - unfold reset_settled. destruct r as [|status [data|]]; try constructor.
    destruct (addBotMessage_value _ _) as [st2|] eqn:A; [|constructor].
    apply addBotMessage_value_selected in A as (S & _).
    cbn [selectedOptions with_panel]. rewrite S. constructor.
  - unfold sendMessage_settled. destruct r as [|status [data|]]; try constructor.
    destruct (addBotMessage_value _ _) as [st2|] eqn:A; [|constructor].
    apply addBotMessage_value_selected in A as (S & _).
    pose proof (updateEntityPanel_view_keeps (entities data) (complete data) st2)
      as (_ & P & _).
    destruct (updateEntityPanel_view _ _ _) as [st3|st3]; cbn [outcome_state] in P.
    + rewrite P, S. constructor.
    + unfold sendMessage_catch. cbn [selectedOptions addBotMessage with_chat
        remove_typing]. rewrite P, S. constructor.
  - destruct t as [i| | |i|]; cbn [on_click].
    + unfold click_checkbox.
      destruct (nth_error (rendered_options st) i) as [o|] eqn:N; [|constructor].
      assert (In (data_number o) (rendered_ids st)) as I
          by (apply in_map; eapply nth_error_In; eassumption).
      unfold on_checkbox, record_choice, toggle_checked.
      cbn [checked data_number set_checked].
      destruct cr, (negb (checked o)); cbn; now constructor.
    + rewrite select_all_selected.
      destruct (forallb checked (rendered_options st)); constructor.
    + unfold on_submit_selection.
      destruct (Nat.eqb _ 0); constructor.
    + unfold on_option_body.
      destruct (nth_error (rendered_options st) i) as [o|] eqn:N; [|constructor].
      assert (In (data_number o) (rendered_ids st)) as I
          by (apply in_map; eapply nth_error_In; eassumption).
      unfold record_choice. destruct (negb (checked o)); cbn; now constructor.
    + constructor.
Qed.

Lemma ids_app (c : list element) (e : element) :
  map data_number (flat_map controls_of (c ++ [e])%list) =
  (map data_number (flat_map controls_of c) ++ map data_number (controls_of e))%list.
Proof. rewrite flat_map_app, map_app. cbn [flat_map]. now rewrite app_nil_r. Qed.

(** Apart from a completed reset, no callback takes an option off the
    page or changes its id. *)
Lemma step_keeps_ids (cr : bool) (st : state) (ev : event) :
  keeps_transcript ev = true ->
  incl (rendered_ids st) (rendered_ids (step cr st ev)).
Proof.
  assert (grow : forall c e,
             incl (map data_number (flat_map controls_of c))
                  (map data_number (flat_map controls_of (c ++ [e])%list)))
    by (intros c e; rewrite ids_app; apply incl_appl, incl_refl).
  assert (same : forall i f c,
             (forall o, data_number (f o) = data_number o) ->
             map data_number (flat_map controls_of (update_option i f c)) =
             map data_number (flat_map controls_of c))
    by (intros i f c F; now rewrite options_update, update_ctl_ids).
  unfold rendered_ids, rendered_options.
  destruct ev as [v| |c|r|r|t]; cbn [step keeps_transcript]; intros K.
  - apply incl_refl.
  - unfold on_submit. destruct (String.eqb _ _); [apply incl_refl|].
    cbn [chat sendMessage fetch with_chat with_input addUserMessage].
    eapply incl_tran; [|apply grow]. apply grow.
  - destruct c; apply incl_refl.
  - unfold reset_settled. destruct r as [|status [data|]]; [|discriminate|];
      apply grow.
  - unfold sendMessage_settled, sendMessage_catch.
    destruct r as [|status [data|]].
    + cbn [chat addBotMessage with_chat remove_typing].
      eapply incl_tran; [|apply grow]. rewrite options_remove_typing. apply incl_refl.
    + destruct (addBotMessage_value _ _) as [st2|] eqn:A.
      * apply addBotMessage_value_selected in A as (_ & _ & e & E).
        pose proof (updateEntityPanel_view_keeps (entities data) (complete data)
                      st2) as (P & _).
        destruct (updateEntityPanel_view _ _ _) as [st3|st3];
          cbn [outcome_state] in P.
        -- rewrite P, E. cbn [chat remove_typing with_chat].
           eapply incl_tran; [|apply grow]. rewrite options_remove_typing.
           apply incl_refl.
        -- cbn [chat addBotMessage with_chat remove_typing].
           eapply incl_tran; [|apply grow]. rewrite options_remove_typing.
           rewrite P, E. cbn [chat remove_typing with_chat].
           eapply incl_tran; [|apply grow]. rewrite options_remove_typing.
           apply incl_refl.
      * cbn [chat addBotMessage with_chat remove_typing].
        eapply incl_tran; [|apply grow]. rewrite !options_remove_typing.
        apply incl_refl.
    + cbn [chat addBotMessage with_chat remove_typing].
      eapply incl_tran; [|apply grow]. rewrite options_remove_typing. apply incl_refl.
  - destruct t as [i| | |i|]; cbn [on_click].
    + unfold click_checkbox.
      destruct (nth_error (rendered_options st) i) as [o|] eqn:N;
        [|apply incl_refl].
      unfold on_checkbox, record_choice.
      destruct cr, (checked (toggle_checked o));
        cbn [chat with_chat with_selected selected_add selected_delete];
        rewrite ?same by reflexivity; apply incl_refl.
    + fold (rendered_options (on_select_all st)). rewrite select_all_options.
      rewrite map_map. cbn [data_number set_checked]. apply incl_refl.
    + unfold on_submit_selection. destruct (Nat.eqb _ 0); [apply incl_refl|].
      cbn [chat with_selected sendMessage fetch addUserMessage with_chat].
      apply grow.
    + unfold on_option_body.
      destruct (nth_error (rendered_options st) i) as [o|] eqn:N;
        [|apply incl_refl].
      unfold record_choice.
      destruct (negb (checked o));
        cbn [chat with_chat with_selected selected_add selected_delete];
        rewrite same by reflexivity; apply incl_refl.
    + apply incl_refl.
Qed.

End PageFacts.

(* ===================================================================== *)
(** ** The specification, claim by claim: classifier and widget builder *)
(* ===================================================================== *)

(** C1, evaluated on the code.  The claim asks for exactly two option
    controls, with ids 1 and 2, for the prompt of the example.  The widget
    builder writes three: what is left of the marker's line, [(e.g., ...):],
    is the first entry of the option block and becomes an option control
    of its own, with that text as id and [undefined] as details; the
    controls 1 and 2 follow, then one select-all and one confirm control. *)
Theorem jane_prompt_controls :
  option_ids jane_prompt = ["(e.g., ...):"; "1"; "2"] /\
  option_details jane_prompt =
    ["undefined"; "Jane Doe (jane@x.com)"; "Jane Roe (jane2@x.com)"] /\
  controls_of (bot_element jane_prompt) =
    [ {| data_number := "(e.g., ...):"; checked := false |};
      {| data_number := "1"; checked := false |};
      {| data_number := "2"; checked := false |} ] /\
  occurrences ("<button class=" ++ dq ++ "email-option")
              (formatEmailSelectionMessage jane_prompt) = 3 /\
  occurrences ("id=" ++ dq ++ "select-all" ++ dq)
              (formatEmailSelectionMessage jane_prompt) = 1 /\
  occurrences ("id=" ++ dq ++ "submit-selection" ++ dq)
              (formatEmailSelectionMessage jane_prompt) = 1.
Proof. repeat split; vm_compute; reflexivity. Qed.

(** C2, evaluated on the code.  The claim has an entry without the
    delimiter dropped.  No error is raised, but the entry is not dropped
    either: in [gap_prompt] the second entry has no delimiter, and it is
    rendered as the second of three option controls, its whole text as id
    and [undefined] as details. *)
Theorem undelimited_entry_rendered :
  includes "Bob Birch (birch@x.com)" ". " = false /\
  option_ids gap_prompt = ["1"; "Bob Birch (birch@x.com)"; "3"] /\
  option_details gap_prompt =
    ["Bob Ash (ash@x.com)"; "undefined"; "Bob Cole (cole@x.com)"] /\
  occurrences ("<button class=" ++ dq ++ "email-option")
              (formatEmailSelectionMessage gap_prompt) = 3.
Proof. repeat split; vm_compute; reflexivity. Qed.

(** C6 as stated fails: in [twice_prompt] the marker occurs twice, and the
    option block is only the text between the two occurrences, so that
    intro, marker and option block do not make up the message again. *)
Lemma split_drops_after_second_marker :
  is_selection_prompt twice_prompt = true /\
  selection_parts twice_prompt =
    (Some "Multiple contacts found for Ann. ", Some (nl ++ "1. Ann (")) /\
  "Multiple contacts found for Ann. " ++ select_marker ++ (nl ++ "1. Ann (")
    <> twice_prompt /\
  option_ids twice_prompt = ["1"].
Proof.
  repeat split; try (vm_compute; reflexivity).
  intros H. apply String.eqb_eq in H. vm_compute in H. discriminate.
Qed.

(** C6, amended.  A message is treated as a selection prompt exactly when
    it contains both literals.  It is then cut at the first occurrence of
    the marker: the intro is everything before it; the option block is
    everything after it when the marker does not occur again, and otherwise
    the text up to the next occurrence. *)
Theorem split_at_first_marker (message : string) :
  (is_selection_prompt message = true <->
   contains found_marker message /\ contains select_marker message) /\
  (is_selection_prompt message = true ->
   exists intro rest block,
     first_split select_marker message intro rest /\
     (~ contains select_marker rest /\ block = rest \/
      exists tail, first_split select_marker rest block tail) /\
     selection_parts message = (Some intro, Some block) /\
     formatEmailSelectionMessage message =
       formattedIntro intro ++ formattedOptions block).
Proof.
  split.
  - unfold is_selection_prompt.
    now rewrite andb_true_iff, !JSFacts.includes_spec.
  - intros S.
    destruct (FormatFacts.selection_parts_bound message S)
      as (intro & rest & B & P).
    exists intro, rest, (second_piece select_marker rest).
    split; [now apply JSFacts.break_at_first|].
    split; [|split; [exact P|]].
    + unfold second_piece.
      destruct (break_at select_marker rest) as [[mid tail]|] eqn:B2.
      * right. exists tail. now apply JSFacts.break_at_first.
      * left. split; [|reflexivity].
        apply JSFacts.includes_false. unfold includes. now rewrite B2.
    + unfold formatEmailSelectionMessage. now rewrite S, P.
Qed.

(** The amended C6 at the two-option prompt: one marker, so the option
    block is all that follows it. *)
Lemma split_at_first_marker_witness :
  is_selection_prompt two_option_prompt = true /\
  exists intro rest block,
    first_split select_marker two_option_prompt intro rest /\
    (~ contains select_marker rest /\ block = rest \/
     exists tail, first_split select_marker rest block tail) /\
    selection_parts two_option_prompt = (Some intro, Some block) /\
    formatEmailSelectionMessage two_option_prompt =
      formattedIntro intro ++ formattedOptions block.
Proof.
  split; [reflexivity|].
  apply (proj2 (split_at_first_marker two_option_prompt)). reflexivity.
Defined.

(** C9, evaluated on the code.  The claim has all untrusted message text
    escaped before it reaches the transcript.  That holds for plain
    messages ([FormatFacts.plain_message_escaped]) and for user turns, but
    not in the other two branches: a message with the shape of an email
    mention is returned as it came when the pattern matches nowhere, and
    the intro and the entries of a selection prompt are written into the
    markup unescaped. *)
Theorem markup_reaches_transcript :
  is_selection_prompt markup_mention = false /\
  has_email_shape markup_mention = true /\
  formatEmailSelectionMessage markup_mention = markup_mention /\
  escapeHtml markup_mention = "&lt;img src=x onerror=alert(1)&gt; (a@b.co)" /\
  is_selection_prompt markup_prompt = true /\
  includes (formatEmailSelectionMessage markup_prompt) "<b>Jo</b>" = true /\
  includes (formatEmailSelectionMessage markup_prompt) "<i>Jo</i>" = true /\
  includes (escapeHtml markup_prompt) "<" = false.
Proof. repeat split; vm_compute; reflexivity. Qed.

(* ===================================================================== *)
(** ** The specification, claim by claim: selection tracker *)
(* ===================================================================== *)

Lemma size_zero (s : StrSet.t) : Nat.eqb (StrSet.size s) 0 = true <-> s = [].
Proof.
  destruct s; simpl; split; intros H; try reflexivity; discriminate.
Qed.

(** C3.  Confirm with an empty selection set shows the validation message
    and does nothing else: no request is issued, no turn is rendered, and
    the selection set and the rest of the page are as before. *)
Theorem confirm_empty_only_alerts (cancel_restores : bool) (st : state) :
  selectedOptions st = [] ->
  let st' := step cancel_restores st (Click SubmitSelectionButton) in
  alerts st' = (alerts st ++ [empty_selection_alert])%list /\
  requests st' = requests st /\
  chat st' = chat st /\
  selectedOptions st' = selectedOptions st /\
  inputValue st' = inputValue st /\
  entityDisplay st' = entityDisplay st /\
  entityPanelHidden st' = entityPanelHidden st.
Proof.
  intros E. cbn [step on_click]. unfold on_submit_selection.
  rewrite (proj2 (size_zero _) E). now repeat split.
Qed.

Lemma confirm_empty_only_alerts_witness :
  selectedOptions (two_option_page true) = [] /\
  let st' := step true (two_option_page true) (Click SubmitSelectionButton) in
  alerts st' = [empty_selection_alert] /\
  requests st' = [] /\
  chat st' = chat (two_option_page true) /\
  selectedOptions st' = [].
Proof.
  split; [reflexivity|].
  destruct (confirm_empty_only_alerts true (two_option_page true) eq_refl)
    as (A & R & C & S & _).
  cbv zeta. rewrite A, R, C, S. repeat split; reflexivity.
Defined.

(** C4.  Confirm with a non-empty selection set joins the members with
    [" and "], renders the joined text as a user turn, posts it to the
    backend and leaves the set empty; after the two options of a
    two-option prompt have been checked, the text posted is ["1 and 2"]. *)
Theorem confirm_submits_selection (cancel_restores : bool) :
  (forall st : state,
      selectedOptions st <> [] ->
      let selectionText := join " and " (selectedOptions st) in
      let st' := step cancel_restores st (Click SubmitSelectionButton) in
      selectedOptions st' = [] /\
      chat st' = (chat st ++ [UserMessage (user_innerHTML selectionText)])%list /\
      requests st' = (requests st ++ [PostMessage selectionText])%list /\
      alerts st' = alerts st) /\
  (let page := run cancel_restores (two_option_page cancel_restores)
                   [Click (OptionCheckbox 0); Click (OptionCheckbox 1)] in
   let st' := step cancel_restores page (Click SubmitSelectionButton) in
   rendered_ids page = ["1"; "2"] /\
   requests st' = [PostMessage "1 and 2"] /\
   chat st' = (chat page ++ [UserMessage (user_innerHTML "1 and 2")])%list /\
   selectedOptions st' = []).
Proof.
  split.
  - intros st N. cbn [step on_click]. unfold on_submit_selection.
    destruct (Nat.eqb (StrSet.size (selectedOptions st)) 0) eqn:Z.
    + apply size_zero in Z. contradiction.
    + now repeat split.
  - destruct cancel_restores; repeat split; vm_compute; reflexivity.
Qed.

Lemma confirm_submits_selection_witness :
  let page := run false (two_option_page false) [Click (OptionBody 1)] in
  selectedOptions page <> [] /\
  requests (step false page (Click SubmitSelectionButton)) = [PostMessage "2"] /\
  selectedOptions (step false page (Click SubmitSelectionButton)) = [].
Proof.
  cbv zeta.
  assert (selectedOptions (run false (two_option_page false) [Click (OptionBody 1)])
          <> []) as N by (vm_compute; discriminate).
  split; [exact N|].
  destruct (proj1 (confirm_submits_selection false) _ N) as (S & _ & R & _).
  split; [rewrite R; reflexivity | exact S].
Defined.

Lemma forallb_checked_set (b : bool) (l : list option_ctl) :
  l <> [] -> forallb checked (map (set_checked b) l) = b.
Proof.
  induction l as [|o l IH]; intros N; [contradiction|].
  cbn [map forallb set_checked checked]. destruct l as [|o' l].
  - simpl. now rewrite andb_true_r.
  - rewrite IH by discriminate. now destruct b.
Qed.

Lemma unchecked_fixed (l : list option_ctl) :
  Forall (fun o => checked o = false) l -> map (set_checked false) l = l.
Proof.
  induction 1 as [|o l H _ IH]; [reflexivity|].
  cbn [map]. rewrite IH. f_equal. destruct o as [n c]. simpl in H. now subst.
Qed.

Lemma set_checked_twice (a b : bool) (l : list option_ctl) :
  map (set_checked a) (map (set_checked b) l) = map (set_checked a) l.
Proof. rewrite map_map. reflexivity. Qed.

Lemma set_checked_ids (b : bool) (l : list option_ctl) :
  map data_number (map (set_checked b) l) = map data_number l.
Proof. rewrite map_map. reflexivity. Qed.

(** C5.  Select-all is a toggle.  When some option on the page is not
    checked it checks every option and puts every option id into the
    selection set; when all are checked it unchecks every option and takes
    every option id out.  Two invocations in a row that start with no
    option checked therefore end with no option checked and no option id
    selected. *)
Theorem select_all_toggles (cancel_restores : bool) (st : state) :
  let st' := step cancel_restores st (Click SelectAllButton) in
  let st'' := step cancel_restores st' (Click SelectAllButton) in
  (forallb checked (rendered_options st) = false ->
   rendered_options st' = map (set_checked true) (rendered_options st) /\
   forall id, In id (selectedOptions st') <->
              In id (selectedOptions st) \/ In id (rendered_ids st)) /\
  (forallb checked (rendered_options st) = true ->
   rendered_options st' = map (set_checked false) (rendered_options st) /\
   forall id, In id (selectedOptions st') <->
              In id (selectedOptions st) /\ ~ In id (rendered_ids st)) /\
  (Forall (fun o => checked o = false) (rendered_options st) ->
   rendered_options st'' = rendered_options st /\
   none_selected st'' /\
   (selectedOptions st = [] -> selectedOptions st'' = [])).
Proof.
  cbn [step on_click].
  assert (first_case : forall s, forallb checked (rendered_options s) = false ->
            rendered_options (on_select_all s) =
              map (set_checked true) (rendered_options s) /\
            forall id, In id (selectedOptions (on_select_all s)) <->
                       In id (selectedOptions s) \/ In id (rendered_ids s)).
  { intros s A. rewrite PageFacts.select_all_options, PageFacts.select_all_selected, A.
    split; [reflexivity|]. intros id. apply SetFacts.add_all_In. }
  assert (second_case : forall s, forallb checked (rendered_options s) = true ->
            rendered_options (on_select_all s) =
              map (set_checked false) (rendered_options s) /\
            forall id, In id (selectedOptions (on_select_all s)) <->
                       In id (selectedOptions s) /\ ~ In id (rendered_ids s)).
  { intros s A. rewrite PageFacts.select_all_options, PageFacts.select_all_selected, A.
    split; [reflexivity|]. intros id. apply SetFacts.delete_all_In. }
  split; [apply first_case|]. split; [apply second_case|].
  intros U.
  assert (rendered_options (on_select_all (on_select_all st)) = rendered_options st /\
          forall id, In id (selectedOptions (on_select_all (on_select_all st))) <->
                     In id (selectedOptions st) /\ ~ In id (rendered_ids st))
    as (O & S).
  { destruct (forallb checked (rendered_options st)) eqn:A.
    - (* "all checked" with none checked: there is no option on the page *)
      destruct (second_case st A) as (O1 & S1).
      rewrite (unchecked_fixed _ U) in O1.
      assert (forallb checked (rendered_options (on_select_all st)) = true) as A'
          by now rewrite O1.
      destruct (second_case _ A') as (O2 & S2).
      rewrite O1, (unchecked_fixed _ U) in O2.
      split; [exact O2|]. intros id. rewrite S2, S1.
      unfold rendered_ids. rewrite O1. tauto.
    - destruct (first_case st A) as (O1 & S1).
      assert (rendered_options st <> []) as N
          by (intros E; rewrite E in A; discriminate).
      assert (forallb checked (rendered_options (on_select_all st)) = true) as A'
          by (rewrite O1; now apply forallb_checked_set).
      destruct (second_case _ A') as (O2 & S2).
      assert (rendered_ids (on_select_all st) = rendered_ids st) as I
          by (unfold rendered_ids; rewrite O1; apply set_checked_ids).
      split.
      + rewrite O2, O1, set_checked_twice. apply unchecked_fixed. exact U.
      + intros id. rewrite S2, S1, I. tauto. }
  split; [exact O|]. split.
  - split; [now rewrite O|].
    intros id I. unfold rendered_ids in I. rewrite O in I.
    rewrite S. tauto.
  - intros N.
    destruct (selectedOptions (on_select_all (on_select_all st))) as [|x l] eqn:E;
      [reflexivity|].
    destruct (proj1 (S x) (or_introl eq_refl)) as [I _]. rewrite N in I. destruct I.
Qed.

Lemma select_all_toggles_witness :
  let st := two_option_page true in
  let st' := step true st (Click SelectAllButton) in
  let st'' := step true st' (Click SelectAllButton) in
  forallb checked (rendered_options st) = false /\
  forallb checked (rendered_options st') = true /\
  Forall (fun o => checked o = false) (rendered_options st) /\
  rendered_options st' = map (set_checked true) (rendered_options st) /\
  rendered_options st'' = rendered_options st /\
  none_selected st'' /\
  selectedOptions st'' = [].
Proof.
  cbv zeta.
  assert (Forall (fun o => checked o = false) (rendered_options (two_option_page true)))
    as U by (vm_compute; repeat constructor).
  destruct (select_all_toggles true (two_option_page true)) as (T1 & _ & T3).
  destruct (T1 eq_refl) as (O1 & _).
  destruct (T3 U) as (O2 & NS & E).
  split; [reflexivity|]. split; [reflexivity|]. split; [exact U|].
  split; [exact O1|]. split; [exact O2|]. split; [exact NS|].
  apply E. reflexivity.
Defined.

Lemma step_keeps_selection_rendered (cancel_restores : bool) (st : state) (ev : event) :
  keeps_transcript ev = true ->
  selection_rendered st -> selection_rendered (step cancel_restores st ev).
Proof.
  intros K I x Hx. apply (PageFacts.step_keeps_ids cancel_restores st ev K).
  destruct (SetFacts.sel_change_incl _ _ _
              (PageFacts.step_sel_change cancel_restores st ev) x Hx) as [H|H];
    [now apply I | exact H].
Qed.

(** C7 as stated fails: a completed reset empties the transcript and does
    not touch the selection set, so an id selected before the reset stays
    in the set with no option left on the page. *)
Lemma reset_strands_selection :
  let st := run true (two_option_page true)
                [Click (OptionBody 0); ResetClick true;
                 ResetSettled (text_response 200 "Conversation reset.")] in
  selectedOptions st = ["1"] /\
  rendered_ids st = [] /\
  ~ selection_rendered st.
Proof.
  cbv zeta. split; [reflexivity|]. split; [reflexivity|].
  intros I. apply (I "1"). vm_compute. now left.
Qed.

Lemma run_selection_rendered (cancel_restores : bool) (evs : list event) :
  forall st, resets_keep_selection cancel_restores st evs = true ->
             selection_rendered st ->
             selection_rendered (run cancel_restores st evs).
Proof.
  induction evs as [|ev evs IH]; intros st K I; [exact I|].
  cbn [resets_keep_selection] in K. apply andb_true_iff in K as [K1 K2].
  unfold run. cbn [fold_left]. apply IH; [exact K2|].
  destruct (keeps_transcript ev) eqn:T.
  - now apply step_keeps_selection_rendered.
  - cbn [orb] in K1. rewrite forallb_forall in K1.
    destruct ev as [v| |c|r|r|t]; try discriminate T.
    intros x Hx. cbn [step] in Hx. rewrite PageFacts.reset_settled_selected in Hx.
    apply SetFacts.has_In. now apply K1.
Qed.

(** C7, amended.  Take any sequence of events in which the texts of the
    backend that are rendered without escaping hold no markup character,
    and in which every answered reset renders again the ids selected at
    that moment, as it does when nothing is selected then.  At its end the selection set
    holds only ids of options that are on the page.  And right after any
    confirm action the set is empty. *)
Theorem selection_within_rendered (cancel_restores : bool) :
  (forall evs : list event,
      forallb inert_event evs = true ->
      resets_keep_selection cancel_restores initial evs = true ->
      selection_rendered (run cancel_restores initial evs)) /\
  (forall st : state,
      selectedOptions (step cancel_restores st (Click SubmitSelectionButton)) = []).
Proof.
  split.
  - intros evs _ K. apply run_selection_rendered; [exact K|].
    intros x [].
  - intros st. cbn [step on_click]. unfold on_submit_selection.
    destruct (Nat.eqb (StrSet.size (selectedOptions st)) 0) eqn:Z; [|reflexivity].
    now apply size_zero in Z.
Qed.

Lemma selection_within_rendered_witness :
  let evs := [MessageSettled (text_response 200 two_option_prompt);
              Click (OptionCheckbox 0); Click SelectAllButton;
              Click SubmitSelectionButton; MessageSettled NetworkError;
              ResetClick true;
              ResetSettled (text_response 200 "Conversation reset.");
              Typed "Jane"; Submit;
              MessageSettled (text_response 200 two_option_prompt);
              Click (OptionBody 1)] in
  forallb inert_event evs = true /\
  resets_keep_selection true initial evs = true /\
  forallb keeps_transcript evs = false /\
  selectedOptions (run true initial evs) = ["2"] /\
  selection_rendered (run true initial evs).
Proof.
  cbv zeta. split; [reflexivity|]. split; [reflexivity|].
  split; [reflexivity|]. split; [reflexivity|].
  apply (proj1 (selection_within_rendered true)); reflexivity.
Defined.

(* ===================================================================== *)
(** ** The specification, claim by claim: the turn cycle *)
(* ===================================================================== *)






(* ===================================================================== *)
(** ** The specification, claim by claim: the order of the selection *)
(* ===================================================================== *)

Section Stamps.

Variable cancel_restores : bool.

Lemma sorted_app (t : string -> nat) (l1 l2 : list string) :
  StronglySorted (fun a b => t a <= t b) l1 ->
  StronglySorted (fun a b => t a <= t b) l2 ->
  (forall a b, In a l1 -> In b l2 -> t a <= t b) ->
  StronglySorted (fun a b => t a <= t b) (l1 ++ l2)%list.
Proof.
  intros S1 S2 C. induction S1 as [|a l1 S1 IH F]; [exact S2|].
  cbn [app]. constructor.
  - apply IH. intros x y Ix Iy. apply C; [now right | exact Iy].
  - apply Forall_app. split; [exact F|].
    apply Forall_forall. intros b Ib. apply C; [now left | exact Ib].
Qed.

Lemma sorted_filter (t : string -> nat) (p : string -> bool) (l : list string) :
  StronglySorted (fun a b => t a <= t b) l ->
  StronglySorted (fun a b => t a <= t b) (filter p l).
Proof.
  induction 1 as [|a l S IH F]; cbn [filter]; [constructor|].
  destruct (p a); [|exact IH]. constructor; [exact IH|].
  apply Forall_forall. intros b Ib. apply filter_In in Ib as [Ib _].
  revert b Ib. now apply Forall_forall.
Qed.

Lemma sorted_ext (t t' : string -> nat) (l : list string) :
  (forall x, In x l -> t' x = t x) ->
  StronglySorted (fun a b => t a <= t b) l ->
  StronglySorted (fun a b => t' a <= t' b) l.
Proof.
  intros E S. induction S as [|a l S IH F]; [constructor|].
  constructor.
  - apply IH. intros x I. apply E. now right.
  - apply Forall_forall. intros b Ib.
    rewrite (E a) by now left. rewrite (E b) by now right.
    revert b Ib. now apply Forall_forall.
Qed.

(** One event keeps the selection set ordered by the time of entry. *)
Lemma step_stamps (st : state) (ev : event) (now : nat) (stamp : string -> nat) :
  StronglySorted (fun a b => stamp a <= stamp b) (selectedOptions st) ->
  (forall x, In x (selectedOptions st) -> 1 <= stamp x <= now) ->
  let st' := step cancel_restores st ev in
  let stamp' := fun x => if entered st st' x then S now else stamp x in
  StronglySorted (fun a b => stamp' a <= stamp' b) (selectedOptions st') /\
  (forall x, In x (selectedOptions st') -> 1 <= stamp' x <= S now).
Proof.
  intros Hs Hb st' stamp'.
  destruct (SetFacts.sel_change_order _ _ _
              (PageFacts.step_sel_change cancel_restores st ev))
    as (added & E & D).
  fold st' in E.
  assert (old : forall x, In x (selectedOptions st) -> stamp' x = stamp x).
  { intros x I. unfold stamp', entered.
    now rewrite (proj2 (SetFacts.has_In _ _) I). }
  assert (new : forall x, In x added -> stamp' x = S now).
  { intros x I. unfold stamp', entered.
    rewrite (proj2 (SetFacts.has_not_In _ _) (D x I)).
    assert (In x (selectedOptions st')) as I'
        by (rewrite E; apply in_app_iff; now right).
    now rewrite (proj2 (SetFacts.has_In _ _) I'). }
  split.
  - rewrite E. apply sorted_app.
    + apply sorted_filter. now apply sorted_ext with (t := stamp).
    + clear -new. induction added as [|a l IH]; constructor.
      * apply IH. intros x I. apply new. now right.
      * apply Forall_forall. intros b Ib.
        rewrite (new a) by now left. rewrite (new b) by now right. lia.
    + intros a b Ia Ib. apply filter_In in Ia as [Ia _].
      rewrite (old a Ia), (new b Ib). specialize (Hb a Ia). lia.
  - intros x I. rewrite E in I. apply in_app_iff in I as [I|I].
    + apply filter_In in I as [I _]. rewrite (old x I). specialize (Hb x I). lia.
    + rewrite (new x I). lia.
Qed.

Lemma run_stamps (evs : list event) :
  forall (st : state) (now : nat) (stamp : string -> nat),
    StronglySorted (fun a b => stamp a <= stamp b) (selectedOptions st) ->
    (forall x, In x (selectedOptions st) -> 1 <= stamp x <= now) ->
    let t := last_entered cancel_restores evs st now stamp in
    StronglySorted (fun a b => t a <= t b)
                   (selectedOptions (run cancel_restores st evs)) /\
    (forall x, In x (selectedOptions (run cancel_restores st evs)) ->
               1 <= t x <= now + List.length evs).
Proof.
  induction evs as [|ev evs IH]; intros st now stamp Hs Hb.
  - cbn. split; [exact Hs|]. intros x I. specialize (Hb x I). lia.
  - destruct (step_stamps st ev now stamp Hs Hb) as (Hs' & Hb').
    specialize (IH _ _ _ Hs' Hb'). cbn [last_entered List.length].
    unfold run in *. cbn [fold_left].
    replace (now + S (List.length evs)) with (S now + List.length evs) by lia.
    exact IH.
Qed.

Lemma run_NoDup (evs : list event) :
  forall st, NoDup (selectedOptions st) ->
             NoDup (selectedOptions (run cancel_restores st evs)).
Proof.
  induction evs as [|ev evs IH]; intros st N; [exact N|].
  unfold run in *. cbn [fold_left]. apply IH.
  eapply SetFacts.sel_change_NoDup;
    [apply (PageFacts.step_sel_change cancel_restores st ev) | exact N].
Qed.

End Stamps.

(** C10.  Confirm posts the members of the selection set joined in the
    order the set lists them, and that is the order in which they last
    entered the set: along any sequence of events the set has no
    duplicates and is sorted by the time of the last event that brought
    each member in; an event keeps the members that stay in their order
    and places the ones that come in after them.  So checking option 2
    before option 1 posts ["2 and 1"], and so does unchecking and
    rechecking option 1 after both were checked in the order 1, 2. *)
Theorem confirm_follows_insertion_order (cancel_restores : bool) :
  (forall st : state,
      selectedOptions st <> [] ->
      requests (step cancel_restores st (Click SubmitSelectionButton)) =
      (requests st ++ [PostMessage (join " and " (selectedOptions st))])%list) /\
  (forall evs : list event,
      let st := run cancel_restores initial evs in
      let t := last_entered cancel_restores evs initial 0 (fun _ => 0) in
      NoDup (selectedOptions st) /\
      StronglySorted (fun a b => t a <= t b) (selectedOptions st) /\
      forall x, In x (selectedOptions st) -> 1 <= t x <= List.length evs) /\
  (forall (st : state) (ev : event),
      let s' := selectedOptions (step cancel_restores st ev) in
      exists added,
        s' = (filter (fun x => StrSet.has x s') (selectedOptions st) ++ added)%list /\
        forall x, In x added -> ~ In x (selectedOptions st)) /\
  requests (run cancel_restores (two_option_page cancel_restores)
                [Click (OptionCheckbox 1); Click (OptionCheckbox 0);
                 Click SubmitSelectionButton])
  = [PostMessage "2 and 1"] /\
  requests (run cancel_restores (two_option_page cancel_restores)
                [Click (OptionBody 0); Click (OptionBody 1);
                 Click (OptionBody 0); Click (OptionBody 0);
                 Click SubmitSelectionButton])
  = [PostMessage "2 and 1"].
Proof.
  split; [|split; [|split; [|split]]].
  - intros st N. cbn [step on_click]. unfold on_submit_selection.
    destruct (Nat.eqb (StrSet.size (selectedOptions st)) 0) eqn:Z; [|reflexivity].
    apply size_zero in Z. contradiction.
  - intros evs st t. split.
    + apply run_NoDup. constructor.
    + apply (run_stamps cancel_restores evs initial 0 (fun _ => 0)).
      * constructor.
      * intros x [].
  - intros st ev s'.
    apply (SetFacts.sel_change_order (rendered_ids st)).
    apply PageFacts.step_sel_change.
  - destruct cancel_restores; reflexivity.
  - destruct cancel_restores; reflexivity.
Qed.

Lemma confirm_follows_insertion_order_witness :
  let page := run true (two_option_page true)
                  [Click SelectAllButton; Click (OptionBody 0); Click (OptionBody 0)] in
  selectedOptions page <> [] /\
  requests (step true page (Click SubmitSelectionButton)) = [PostMessage "2 and 1"].
Proof.
  cbv zeta.
  assert (selectedOptions
            (run true (two_option_page true)
                 [Click SelectAllButton; Click (OptionBody 0); Click (OptionBody 0)])
          <> []) as N by (vm_compute; discriminate).
  split; [exact N|].
  rewrite (proj1 (confirm_follows_insertion_order true) _ N). reflexivity.
Defined.

(* ===================================================================== *)
(** ** The embedding at work on the examples of the specification *)
(* ===================================================================== *)

(** A name followed by a parenthesised address is wrapped in two spans;
    the text around the mention is kept. *)
Example mention_wrapped :
  formatEmailSelectionMessage "Invite John Smith (john@x.com)!" =
  "<span class=" ++ dq ++ "text-blue-700 font-medium" ++ dq ++ ">Invite John Smith</span> "
  ++ "<span class=" ++ dq ++ "text-blue-500 text-sm" ++ dq ++ ">(john@x.com)</span>!".
Proof. reflexivity. Qed.

(** A group whose value list is empty is left out of the panel, and a
    complete context adds one mark. *)
Example panel_refresh :
  let st := updateEntityPanel (Some [("DATE", ["Monday"]); ("ATTENDEE", [])])
                              true initial in
  entityPanelHidden st = false /\
  entityDisplay st =
    [EntityGroup "DATE"
       [EntityTag (ClassText "entity-tag bg-green-200 text-green-800") "Monday"];
     CompleteMark].
Proof. split; reflexivity. Qed.

(** An entity whose value is a string and not a list passes the test of
    the loop and has no [forEach]: the refresh throws after the bot turn
    was added, with the panel shown and empty, and the [catch] adds the
    apology. *)
Example panel_refresh_throws :
  let data := {| response := JStr "ok";
                 entities := [("DATE", Text "Monday")];
                 complete := true |} in
  let st := sendMessage_settled (Responded 200 (Some data)) awaiting_page in
  entries_of_fields [("DATE", JStr "Monday")] = Some (entities data) /\
  chat st = (chat initial ++ [UserMessage (user_innerHTML "hi");
                              bot_element "ok";
                              bot_element message_apology])%list /\
  entityPanelHidden st = false /\
  entityDisplay st = [].
Proof. repeat split. Qed.

(** An attendee with an address is shown as a chip with the two parts
    escaped. *)
Example attendee_chip :
  value_tag "ATTENDEE" "Jo <Q> (jo@x.com)" =
  EmailChip (chip_innerHTML "Jo <Q>" "jo@x.com").
Proof. reflexivity. Qed.

(** An empty or blank input is not submitted. *)
Example blank_submit_ignored :
  on_submit (with_input initial "   ") = with_input initial "   ".
Proof. reflexivity. Qed.

(* ===================================================================== *)
(** ** Further properties: escaping *)
(* ===================================================================== *)

Module EscapeFacts.
Import JSFacts.

Lemma escapeHtml_append (a b : string) :
  escapeHtml (a ++ b) = escapeHtml a ++ escapeHtml b.
Proof.
  induction a as [|c a IH]; [reflexivity|].
  cbn [append escapeHtml]. now rewrite IH, append_assoc.
Qed.

Lemma escape_char_cases (c : ascii) :
  (c = "&"%char /\ escape_char c = "&amp;") \/
  (c = "<"%char /\ escape_char c = "&lt;") \/
  (c = ">"%char /\ escape_char c = "&gt;") \/
  (c = "160"%char /\ escape_char c = "&nbsp;") \/
  (needs_escape c = false /\ escape_char c = String c EmptyString).
Proof.
  unfold escape_char, needs_escape.
  destruct (Ascii.eqb c "&") eqn:E1; [apply Ascii.eqb_eq in E1; now left|].
  destruct (Ascii.eqb c "<") eqn:E2; [apply Ascii.eqb_eq in E2; now right; left|].
  destruct (Ascii.eqb c ">") eqn:E3; [apply Ascii.eqb_eq in E3; now right; right; left|].
  destruct (Nat.eqb (code c) 160) eqn:E4.
  - right; right; right; left. split; [|reflexivity].
    apply Nat.eqb_eq in E4. unfold code in E4.
    rewrite <- (ascii_nat_embedding c), E4. reflexivity.
  - now right; right; right; right.
Qed.


Lemma escapeHtml_injective (a b : string) :
  escapeHtml a = escapeHtml b -> a = b.
Proof.
  revert b. induction a as [|c a IH]; intros [|d b] H.
  - reflexivity.
  - cbn [escapeHtml] in H.
    destruct (escape_char_cases d) as [[_ E]|[[_ E]|[[_ E]|[[_ E]|[_ E]]]]];
      rewrite E in H; discriminate.
  - cbn [escapeHtml] in H.
    destruct (escape_char_cases c) as [[_ E]|[[_ E]|[[_ E]|[[_ E]|[_ E]]]]];
      rewrite E in H; discriminate.
  - cbn [escapeHtml] in H.
    destruct (escape_char_cases c) as [[-> E]|[[-> E]|[[-> E]|[[-> E]|[Nc E]]]]];
      destruct (escape_char_cases d) as [[-> F]|[[-> F]|[[-> F]|[[-> F]|[Nd F]]]]];
      rewrite ?E, ?F in H; cbn [append] in H;
      try discriminate;
      try (injection H as H; f_equal; now apply IH);
      try (injection H as <- H; discriminate);
      try (injection H as -> H; discriminate).
    injection H as -> H. f_equal. now apply IH.
Qed.

Lemma escapeHtml_length (s : string) :
  String.length s <= String.length (escapeHtml s) /\
  (all_chars (fun c => negb (needs_escape c)) s = false ->
   String.length s < String.length (escapeHtml s)).
Proof.
  induction s as [|c s [IH1 IH2]]; cbn [escapeHtml all_chars String.length].
  - split; [lia | discriminate].
  - rewrite length_append.
    destruct (escape_char_cases c) as [[-> E]|[[-> E]|[[-> E]|[[-> E]|[Nc E]]]]];
      rewrite E; cbn [String.length]; try (split; [lia | intros _; lia]).
    rewrite Nc. cbn [negb andb]. split; [lia|]. intros H. specialize (IH2 H). lia.
Qed.

Lemma escapeHtml_safe (s : string) :
  all_chars (fun c => negb (needs_escape c)) s = true -> escapeHtml s = s.
Proof.
  induction s as [|c s IH]; [reflexivity|].
  cbn [all_chars escapeHtml]. intros H. apply andb_true_iff in H as [H1 H2].
  apply negb_true_iff in H1.
  destruct (escape_char_cases c) as [[-> E]|[[-> E]|[[-> E]|[[-> E]|[Nc E]]]]];
    try discriminate.
  rewrite E. cbn [append]. now rewrite IH.
Qed.

End EscapeFacts.

(** X1.  [escapeHtml] loses nothing: two texts with the same markup are the
    same text. *)
Theorem escaped_text_determined (a b : string) :
  escapeHtml a = escapeHtml b <-> a = b.
Proof.
  split; [apply EscapeFacts.escapeHtml_injective | now intros ->].
Qed.

(** X2.  The markup [escapeHtml] returns holds no angle bracket, whatever the
    text; it is the text itself exactly when the text holds none of the
    four code units that are rewritten, and longer otherwise. *)
Theorem escaped_text_inert (html : string) :
  all_chars (fun c => negb (Ascii.eqb c "<" || Ascii.eqb c ">")) (escapeHtml html) = true /\
  (escapeHtml html = html <->
   all_chars (fun c => negb (needs_escape c)) html = true) /\
  String.length html <= String.length (escapeHtml html).
Proof.
  split; [|split].
  - induction html as [|c s IH]; [reflexivity|]. cbn [escapeHtml].
    destruct (EscapeFacts.escape_char_cases c)
      as [[-> E]|[[-> E]|[[-> E]|[[-> E]|[Nc E]]]]];
      rewrite E; cbn [append all_chars]; try exact IH.
    rewrite IH, andb_true_r. unfold needs_escape in Nc.
    destruct (Ascii.eqb c "<"), (Ascii.eqb c ">"), (Ascii.eqb c "&");
      try discriminate; reflexivity.
  - split; [|apply EscapeFacts.escapeHtml_safe].
    intros E.
    destruct (all_chars (fun c => negb (needs_escape c)) html) eqn:A; [reflexivity|].
    apply (proj2 (EscapeFacts.escapeHtml_length html)) in A. rewrite E in A. lia.
  - apply EscapeFacts.escapeHtml_length.
Qed.

(* ===================================================================== *)
(** ** Further properties: the submit listener *)
(* ===================================================================== *)

Module TrimFacts.
Import JSFacts.

Lemma trimStart_cases (s : string) :
  (all_chars is_space s = true /\ trimStart s = EmptyString) \/
  (all_chars is_space s = false /\
   exists c r, trimStart s = String c r /\ is_space c = false).
Proof.
  induction s as [|c s IH]; [now left|].
  cbn [all_chars trimStart]. destruct (is_space c) eqn:Sp.
  - exact IH.
  - right. split; [reflexivity|]. now exists c, s.
Qed.

Lemma trimEnd_empty (s : string) :
  trimEnd s = EmptyString <-> all_chars is_space s = true.
Proof.
  induction s as [|c s IH]; [now split|].
  cbn [trimEnd all_chars]. destruct (trimEnd s) as [|d r].
  - rewrite (proj1 IH eq_refl), andb_true_r.
    destruct (is_space c); split; congruence.
  - assert (all_chars is_space s = false) as ->.
    { destruct (all_chars is_space s); [|reflexivity].
      now specialize (proj2 IH eq_refl). }
    rewrite andb_false_r. split; discriminate.
Qed.

Lemma trimEnd_head (c : ascii) (s : string) :
  is_space c = false -> exists r, trimEnd (String c s) = String c r.
Proof.
  intros Sp. cbn [trimEnd]. destruct (trimEnd s); [rewrite Sp|]; now eexists.
Qed.

Lemma trimEnd_cons (c : ascii) (s : string) :
  trimEnd (String c s) =
  match trimEnd s with
  | EmptyString => if is_space c then EmptyString else String c EmptyString
  | r => String c r
  end.
Proof. reflexivity. Qed.

Lemma trimEnd_idempotent (s : string) : trimEnd (trimEnd s) = trimEnd s.
Proof.
  induction s as [|c s IH]; [reflexivity|].
  rewrite trimEnd_cons. destruct (trimEnd s) as [|d r] eqn:E.
  - destruct (is_space c) eqn:Sp; [reflexivity|]. cbn [trimEnd]. now rewrite Sp.
  - rewrite trimEnd_cons, IH. reflexivity.
Qed.

Lemma trimEnd_last (s pre : string) (d : ascii) :
  trimEnd s = pre ++ String d EmptyString -> is_space d = false.
Proof.
  revert pre. induction s as [|c s IH]; intros pre H.
  - destruct pre; discriminate.
  - cbn [trimEnd] in H. destruct (trimEnd s) as [|e r] eqn:E.
    + destruct (is_space c) eqn:Sp; [destruct pre; discriminate|].
      destruct pre as [|x pre]; [now injection H as <-|].
      destruct pre; discriminate.
    + destruct pre as [|x pre].
      * discriminate.
      * injection H as _ H. now apply (IH pre).
Qed.

Lemma trim_empty (s : string) :
  trim s = EmptyString <-> all_chars is_space s = true.
Proof.
  unfold trim. rewrite trimEnd_empty.
  destruct (trimStart_cases s) as [[A ->]|[A (c & r & -> & Sp)]]; rewrite A.
  - now split.
  - cbn [all_chars]. rewrite Sp. now split.
Qed.

Lemma trim_idempotent (s : string) : trim (trim s) = trim s.
Proof.
  unfold trim.
  destruct (trimStart_cases s) as [[A ->]|[A (c & r & -> & Sp)]]; [reflexivity|].
  destruct (trimEnd_head c r Sp) as [r' E].
  rewrite E at 1. cbn [trimStart]. rewrite Sp, <- E. apply trimEnd_idempotent.
Qed.

Lemma trim_first (s : string) (c : ascii) (r : string) :
  trim s = String c r -> is_space c = false.
Proof.
  unfold trim.
  destruct (trimStart_cases s) as [[A ->]|[A (d & t & -> & Sp)]]; [discriminate|].
  destruct (trimEnd_head d t Sp) as [r' E]. rewrite E. now intros [= <- _].
Qed.

End TrimFacts.

(** X3.  The submit listener ignores an input that is empty or all white space:
    the page stays as it is.  Any other input is posted once, trimmed: the
    text posted is not empty and has no white space at either end; the
    user turn and a typing indicator are appended and the field is
    emptied. *)
Theorem submit_posts_trimmed_text (st : state) :
  (all_chars is_space (inputValue st) = true -> on_submit st = st) /\
  (all_chars is_space (inputValue st) = false ->
   let message := trim (inputValue st) in
   let st' := on_submit st in
   requests st' = (requests st ++ [PostMessage message])%list /\
   chat st' = (chat st ++ [UserMessage (user_innerHTML message); TypingIndicator])%list /\
   inputValue st' = EmptyString /\
   message <> EmptyString /\
   trim message = message /\
   (forall c r, message = String c r -> is_space c = false) /\
   (forall pre d, message = pre ++ String d EmptyString -> is_space d = false)).
Proof.
  unfold on_submit. split; intros B.
  - now rewrite (proj2 (TrimFacts.trim_empty _) B).
  - assert (trim (inputValue st) <> EmptyString) as N.
    { intros E. apply TrimFacts.trim_empty in E. congruence. }
    destruct (String.eqb (trim (inputValue st)) EmptyString) eqn:Q;
      [now apply String.eqb_eq in Q|].
    cbn. split; [reflexivity|]. split; [now rewrite <- app_assoc|].
    split; [reflexivity|]. split; [exact N|].
    split; [apply TrimFacts.trim_idempotent|].
    split; [apply TrimFacts.trim_first | apply TrimFacts.trimEnd_last].
Qed.

Lemma submit_posts_trimmed_text_witness :
  on_submit (with_input initial ("  " ++ nl)) = with_input initial ("  " ++ nl) /\
  requests (on_submit (with_input initial " Book a room  ")) =
    [PostMessage "Book a room"].
Proof.
  split.
  - apply (proj1 (submit_posts_trimmed_text (with_input initial ("  " ++ nl)))).
    reflexivity.
  - destruct (proj2 (submit_posts_trimmed_text (with_input initial " Book a room  "))
                    eq_refl) as (R & _).
    rewrite R. reflexivity.
Defined.

(* ===================================================================== *)
(** ** Further properties: what the callbacks leave alone *)
(* ===================================================================== *)

Module TranscriptFacts.


Lemma turns_update (i : nat) (f : option_ctl -> option_ctl) (c : list element) :
  turns (update_option i f c) = turns c.
Proof.
  revert i. induction c as [|e c IH]; intros i; [reflexivity|].
  destruct e as [h|h cs|]; cbn [update_option].
  - cbn [turns flat_map turn_of]. f_equal. apply IH.
  - destruct (Nat.ltb i (List.length cs)); [reflexivity|].
    cbn [turns flat_map turn_of]. f_equal. apply IH.
  - cbn [turns flat_map turn_of]. f_equal. apply IH.
Qed.






End TranscriptFacts.

Module FrameFacts.
Import TranscriptFacts.

Lemma addBotMessage_value_frame (v : jsval) (st st' : state) :
  addBotMessage_value v st = Normal st' ->
  exists h cs,
    st' = with_chat st (chat st ++ [BotMessage h cs])%list /\
    (forall f, formatEmailSelectionMessage_value v = Normal f -> h = bot_innerHTML f).
Proof.
  unfold addBotMessage_value. intros H.
  destruct v; try discriminate.
  - injection H as <-. unfold addBotMessage, bot_element.
    eexists _, _. split; [reflexivity|]. cbn. now intros f [= <-].
  - destruct (formatEmailSelectionMessage_value (JArr items)) as [f|] eqn:F;
      [|discriminate].
    injection H as <-. eexists _, _. split; [reflexivity|]. now intros f' [= <-].
Qed.

Lemma addBotMessage_value_throw (v : jsval) (st : state) :
  addBotMessage_value v st = Throw <-> formatEmailSelectionMessage_value v = Throw.
Proof.
  unfold addBotMessage_value.
  destruct v; cbn; try (split; reflexivity); try (split; discriminate).
  destruct (_ && _); [now split|]. destruct (_ && _); split; congruence.
Qed.

Lemma click_checkbox_frame (cr : bool) (i : nat) (st : state) :
  requests (click_checkbox cr i st) = requests st /\
  alerts (click_checkbox cr i st) = alerts st /\
  inputValue (click_checkbox cr i st) = inputValue st /\
  entityDisplay (click_checkbox cr i st) = entityDisplay st /\
  entityPanelHidden (click_checkbox cr i st) = entityPanelHidden st /\
  turns (chat (click_checkbox cr i st)) = turns (chat st).
Proof.
  unfold click_checkbox.
  destruct (nth_error (rendered_options st) i) as [o|]; [|now repeat split].
  unfold on_checkbox, record_choice.
  destruct cr, (checked (toggle_checked o)); cbn; rewrite ?turns_update;
    now repeat split.
Qed.

Lemma option_body_frame (i : nat) (st : state) :
  requests (on_option_body i st) = requests st /\
  alerts (on_option_body i st) = alerts st /\
  inputValue (on_option_body i st) = inputValue st /\
  entityDisplay (on_option_body i st) = entityDisplay st /\
  entityPanelHidden (on_option_body i st) = entityPanelHidden st /\
  turns (chat (on_option_body i st)) = turns (chat st).
Proof.
  unfold on_option_body.
  destruct (nth_error (rendered_options st) i) as [o|]; [|now repeat split].
  unfold record_choice.
  destruct (negb (checked o)); cbn; rewrite ?turns_update; now repeat split.
Qed.



End FrameFacts.



(** X5.  Only a click can change the selection set: typing, submitting, the
    reset button and the continuations of both requests (a new prompt, a
    failure, an answered reset) leave it as it is. *)
Theorem selection_changed_only_by_click
        (cancel_restores : bool) (st : state) (ev : event) :
  is_click ev = false ->
  selectedOptions (step cancel_restores st ev) = selectedOptions st.
Proof.
  destruct ev as [v| |c|r|r|t]; cbn [step is_click]; intros K; try discriminate.
  - reflexivity.
  - unfold on_submit. now destruct (String.eqb _ _).
  - now destruct c.
  - unfold reset_settled. destruct r as [|status [data|]]; try reflexivity.
    destruct (addBotMessage_value _ _) as [st2|] eqn:A; [|reflexivity].
    apply PageFacts.addBotMessage_value_selected in A as (S1 & _).
    cbn [selectedOptions with_panel]. now rewrite S1.
  - unfold sendMessage_settled. destruct r as [|status [data|]]; try reflexivity.
    destruct (addBotMessage_value _ _) as [st2|] eqn:A; [|reflexivity].
    apply PageFacts.addBotMessage_value_selected in A as (S1 & _).
    pose proof (PageFacts.updateEntityPanel_view_keeps (entities data)
                  (complete data) st2) as (_ & P & _).
    destruct (updateEntityPanel_view _ _ _) as [st3|st3];
      cbn [outcome_state] in P.
    + now rewrite P.
    + unfold sendMessage_catch.
      cbn [selectedOptions addBotMessage with_chat remove_typing].
      now rewrite P.
Qed.

Lemma selection_changed_only_by_click_witness :
  let st := run true (two_option_page true) [Click (OptionBody 1)] in
  is_click (MessageSettled (text_response 200 jane_prompt)) = false /\
  selectedOptions (step true st (MessageSettled (text_response 200 jane_prompt)))
  = ["2"].
Proof.
  cbv zeta. split; [reflexivity|].
  rewrite (selection_changed_only_by_click true _
             (MessageSettled (text_response 200 jane_prompt)) eq_refl).
  reflexivity.
Defined.

(** X6.  No callback issues more than one request, and the continuations of a
    settled request issue none: a failed call is not retried. *)
Theorem requests_never_retried (cancel_restores : bool) (st : state) :
  (forall r, requests (sendMessage_settled r st) = requests st) /\
  (forall r, requests (reset_settled r st) = requests st) /\
  (forall ev, exists new,
      requests (step cancel_restores st ev) = (requests st ++ new)%list /\
      List.length new <= 1).
Proof.
  assert (M : forall r, requests (sendMessage_settled r st) = requests st).
  { intros r. unfold sendMessage_settled. destruct r as [|status [data|]];
      try reflexivity.
    destruct (addBotMessage_value _ _) as [st2|] eqn:A; [|reflexivity].
    apply PageFacts.addBotMessage_value_selected in A as (_ & R & _).
    pose proof (PageFacts.updateEntityPanel_view_keeps (entities data)
                  (complete data) st2) as (_ & _ & P & _).
    destruct (updateEntityPanel_view _ _ _) as [st3|st3];
      cbn [outcome_state] in P.
    - now rewrite P.
    - unfold sendMessage_catch.
      cbn [requests addBotMessage with_chat remove_typing].
      now rewrite P. }
  assert (T : forall r, requests (reset_settled r st) = requests st).
  { intros r. unfold reset_settled. destruct r as [|status [data|]];
      try reflexivity.
    destruct (addBotMessage_value _ _) as [st2|] eqn:A; [|reflexivity].
    apply PageFacts.addBotMessage_value_selected in A as (_ & R & _).
    cbn [requests with_panel]. now rewrite R. }
  split; [exact M|]. split; [exact T|].
  assert (same : forall l : list request, l = (l ++ [])%list)
    by (intros l; now rewrite app_nil_r).
  intros ev. destruct ev as [v| |c|r|r|t]; cbn [step].
  - exists []. split; [apply same | simpl; lia].
  - unfold on_submit. destruct (String.eqb _ _).
    + exists []. split; [apply same | simpl; lia].
    + eexists [_]. split; [reflexivity | simpl; lia].
  - destruct c; [eexists [_] | exists []]; (split; [try apply same; reflexivity | simpl; lia]).
  - rewrite T. exists []. split; [apply same | simpl; lia].
  - rewrite M. exists []. split; [apply same | simpl; lia].
  - destruct t as [i| | |i|]; cbn [on_click].
    + destruct (FrameFacts.click_checkbox_frame cancel_restores i st) as (-> & _).
      exists []. split; [apply same | simpl; lia].
    + destruct (PageFacts.select_all_rest st) as (-> & _).
      exists []. split; [apply same | simpl; lia].
    + unfold on_submit_selection. destruct (Nat.eqb _ 0).
      * exists []. split; [apply same | simpl; lia].
      * eexists [_]. split; [reflexivity | simpl; lia].
    + destruct (FrameFacts.option_body_frame i st) as (-> & _).
      exists []. split; [apply same | simpl; lia].
    + exists []. split; [apply same | simpl; lia].
Qed.

(** X7.  The entity display is rewritten only by the continuation of a message
    call answered with a JSON body; clicks, submits and both outcomes of a
    reset leave its content alone (a reset only hides the panel). *)
Theorem entity_display_kept (cancel_restores : bool) (st : state) (ev : event) :
  is_message_answer ev = false ->
  entityDisplay (step cancel_restores st ev) = entityDisplay st /\
  (keeps_transcript ev = true ->
   entityPanelHidden (step cancel_restores st ev) = entityPanelHidden st).
Proof.
  destruct ev as [v| |c|r|r|t]; cbn [step is_message_answer keeps_transcript]; intros K.
  - now split.
  - unfold on_submit. now destruct (String.eqb _ _).
  - now destruct c.
  - unfold reset_settled. destruct r as [|status [data|]]; try (now split).
    split; [|discriminate].
    destruct (addBotMessage_value _ _) as [st2|] eqn:A; [|reflexivity].
    destruct (FrameFacts.addBotMessage_value_frame _ _ _ A) as (h & cs & -> & _).
    reflexivity.
  - unfold sendMessage_settled. destruct r as [|status [data|]];
      try discriminate; now split.
  - destruct t as [i| | |i|]; cbn [on_click].
    + destruct (FrameFacts.click_checkbox_frame cancel_restores i st)
        as (_ & _ & _ & -> & -> & _). now split.
    + destruct (PageFacts.select_all_rest st) as (_ & _ & _ & -> & ->). now split.
    + unfold on_submit_selection. now destruct (Nat.eqb _ 0).
    + destruct (FrameFacts.option_body_frame i st) as (_ & _ & _ & -> & -> & _).
      now split.
    + now split.
Qed.

Lemma entity_display_kept_witness :
  let shown := updateEntityPanel (Some [("DATE", ["Monday"])]) false initial in
  let ev := ResetSettled (text_response 200 "Conversation reset.") in
  is_message_answer ev = false /\
  entityDisplay (step true shown ev) = entityDisplay shown /\
  entityPanelHidden (step true shown ev) = true.
Proof.
  cbv zeta. split; [reflexivity|].
  split; [|reflexivity].
  apply (entity_display_kept true _
           (ResetSettled (text_response 200 "Conversation reset.")) eq_refl).
Defined.

(* ===================================================================== *)
(** ** Further properties: the outcomes of the two requests *)
(* ===================================================================== *)

(** X8.  An answered reset always wipes the transcript.  With a response text
    that can be formatted, the transcript is that one bot turn and the
    panel is hidden; with one that cannot, the transcript is the reset
    apology alone and the panel stays as it was.  A reset that fails in
    transport keeps the transcript and appends the apology.  In no case is
    the selection set, the entity display or the request log touched. *)
Theorem reset_outcomes (st : state) (r : fetch_result) :
  let st' := reset_settled r st in
  (forall status data f,
      r = Responded status (Some data) ->
      formatEmailSelectionMessage_value (response data) = Normal f ->
      (exists cs, chat st' = [BotMessage (bot_innerHTML f) cs]) /\
      entityPanelHidden st' = true) /\
  (forall status data,
      r = Responded status (Some data) ->
      formatEmailSelectionMessage_value (response data) = Throw ->
      chat st' = [bot_element reset_apology] /\
      entityPanelHidden st' = entityPanelHidden st) /\
  (r = NetworkError \/ (exists status, r = Responded status None) ->
   chat st' = (chat st ++ [bot_element reset_apology])%list /\
   entityPanelHidden st' = entityPanelHidden st) /\
  selectedOptions st' = selectedOptions st /\
  entityDisplay st' = entityDisplay st /\
  requests st' = requests st.
Proof.
  cbv zeta. split; [|split; [|split]].
  - intros status data f -> F. unfold reset_settled.
    destruct (addBotMessage_value _ _) as [st2|] eqn:A.
    + destruct (FrameFacts.addBotMessage_value_frame _ _ _ A) as (h & cs & -> & Hh).
      rewrite (Hh f F). split; [now exists cs | reflexivity].
    + apply FrameFacts.addBotMessage_value_throw in A. congruence.
  - intros status data -> F. unfold reset_settled.
    rewrite (proj2 (FrameFacts.addBotMessage_value_throw _ _) F). now split.
  - intros [-> | [status ->]]; now split.
  - unfold reset_settled. destruct r as [|status [data|]]; try (now repeat split).
    destruct (addBotMessage_value _ _) as [st2|] eqn:A; [|now repeat split].
    destruct (FrameFacts.addBotMessage_value_frame _ _ _ A) as (h & cs & -> & _).
    now repeat split.
Qed.

Lemma reset_outcomes_witness :
  (exists cs,
      chat (reset_settled (text_response 200 "Conversation reset.") awaiting_page)
      = [BotMessage (bot_innerHTML "Conversation reset.") cs]) /\
  chat (reset_settled (Responded 200
                         (Some {| response := JUndefined; entities := [];
                                  complete := false |})) awaiting_page)
    = [bot_element reset_apology] /\
  chat (reset_settled NetworkError awaiting_page)
    = (chat awaiting_page ++ [bot_element reset_apology])%list.
Proof.
  split; [|split].
  - destruct (proj1 (reset_outcomes awaiting_page
                       (text_response 200 "Conversation reset."))
                    200 _ _ eq_refl eq_refl) as ((cs & C) & _).
    exists cs. exact C.
  - apply (proj1 (proj2 (reset_outcomes awaiting_page
                           (Responded 200
                              (Some {| response := JUndefined; entities := [];
                                       complete := false |}))))
                 200 {| response := JUndefined; entities := []; complete := false |}
                 eq_refl eq_refl).
  - apply (proj1 (proj2 (proj2 (reset_outcomes awaiting_page NetworkError)))).
    now left.
Defined.





(* ===================================================================== *)
(** ** Further properties: the two patterns *)
(* ===================================================================== *)

Module RegexFacts.
Import JSFacts Regex.

Lemma all_chars_append (p : ascii -> bool) (a b : string) :
  all_chars p (a ++ b) = all_chars p a && all_chars p b.
Proof.
  induction a as [|c a IH]; [reflexivity|].
  cbn [append all_chars]. now rewrite IH, andb_assoc.
Qed.

Lemma take_append (a b : string) : take (String.length a) (a ++ b) = a.
Proof. induction a as [|c a IH]; cbn; [now destruct b | now rewrite IH]. Qed.

(** A greedy repetition hands its continuation what is left after a run
    of at least [min] code units of the class. *)
Lemma rep_sound {R : Type} (p : ascii -> bool) (min : nat) (s : string) :
  forall (n : nat) (k : string -> option R) (x : R),
    rep p min s n k = Some x ->
    exists w s', s = w ++ s' /\ all_chars p w = true /\
                 min <= n + String.length w /\ k s' = Some x.
Proof.
  induction s as [|c s IH]; intros n k x H; cbn [rep] in H.
  - destruct (Nat.leb min n) eqn:L; [|discriminate]. apply Nat.leb_le in L.
    exists EmptyString, EmptyString. repeat split; [simpl; lia | exact H].
  - assert (stop : (if Nat.leb min n then k (String c s) else None) = Some x ->
                   exists w s', String c s = w ++ s' /\ all_chars p w = true /\
                                min <= n + String.length w /\ k s' = Some x).
    { intros S0. destruct (Nat.leb min n) eqn:L; [|discriminate].
      apply Nat.leb_le in L.
      exists EmptyString, (String c s). repeat split; [simpl; lia | exact S0]. }
    destruct (p c) eqn:P; [|now apply stop].
    destruct (rep p min s (S n) k) as [y|] eqn:Rr; [|now apply stop].
    injection H as ->.
    destruct (IH _ _ _ Rr) as (w & s' & -> & A & L & K).
    exists (String c w), s'. cbn [append all_chars String.length].
    rewrite P, A. repeat split; [lia | exact K].
Qed.

(** The matcher is sound: when it answers, the continuation was run on
    what is left after a text that matches the pattern. *)
Lemma exec_sound {R : Type} (r : regex) :
  forall (s : string) (cs : captures) (k : string -> captures -> option R) (x : R),
    exec r s cs k = Some x ->
    exists w s' cs', s = w ++ s' /\ parses r w cs cs' /\ k s' cs' = Some x.
Proof.
  induction r as [c|p min|a IHa b IHb|n g IHg]; intros s cs k x H; cbn [exec] in H.
  - destruct s as [|d s]; [discriminate|].
    destruct (Ascii.eqb c d) eqn:E; [|discriminate]. apply Ascii.eqb_eq in E as <-.
    exists (String c EmptyString), s, cs. now repeat split.
  - destruct (rep_sound _ _ _ _ _ _ H) as (w & s' & -> & A & L & K).
    exists w, s', cs. cbn [parses]. repeat split; [exact A | lia | exact K].
  - destruct (IHa _ _ _ _ H) as (u & s1 & c1 & -> & Pa & H1).
    destruct (IHb _ _ _ _ H1) as (v & s2 & c2 & -> & Pb & H2).
    exists (u ++ v), s2, c2. rewrite append_assoc. split; [reflexivity|].
    split; [|exact H2]. cbn [parses]. now exists u, v, c1.
  - destruct (IHg _ _ _ _ H) as (w & s' & cg & -> & Pg & K).
    rewrite length_append, Nat.add_sub, take_append in K.
    exists w, s', ((n, w) :: cg). split; [reflexivity|]. split; [|exact K].
    cbn [parses]. now exists cg.
Qed.

Lemma match_here_sound (r : regex) (s rest : string) (cs : captures) :
  match_here r s = Some (cs, rest) ->
  exists w, s = w ++ rest /\ parses r w [] cs.
Proof.
  unfold match_here. intros H.
  destruct (exec_sound _ _ _ _ _ H) as (w & s' & cs' & -> & P & [= -> ->]).
  now exists w.
Qed.

Lemma search_sound (r : regex) (s : string) (cs : captures) :
  search r s = Some cs ->
  exists pre w rest, s = pre ++ w ++ rest /\ parses r w [] cs.
Proof.
  induction s as [|c s IH]; cbn [search].
  - destruct (match_here r EmptyString) as [[cs0 rest]|] eqn:M; [|discriminate].
    intros [= ->]. destruct (match_here_sound _ _ _ _ M) as (w & E & P).
    now exists EmptyString, w, rest.
  - destruct (match_here r (String c s)) as [[cs0 rest]|] eqn:M.
    + intros [= ->]. destruct (match_here_sound _ _ _ _ M) as (w & E & P).
      now exists EmptyString, w, rest.
    + intros H. destruct (IH H) as (pre & w & rest & -> & P).
      now exists (String c pre), w, rest.
Qed.

Lemma rep_complete {R : Type} (p : ascii -> bool) (min : nat) (w : string) :
  forall (s' : string) (n : nat) (k : string -> option R),
    all_chars p w = true -> min <= n + String.length w -> k s' <> None ->
    rep p min (w ++ s') n k <> None.
Proof.
  induction w as [|c w IH]; intros s' n k A L K.
  - cbn [append]. simpl in L. assert (Nat.leb min n = true) as Lb
        by (apply Nat.leb_le; lia).
    destruct s' as [|d s']; cbn [rep]; rewrite Lb; [exact K|].
    destruct (p d); [|exact K].
    destruct (rep p min s' (S n) k); [discriminate | exact K].
  - cbn [append rep]. cbn [all_chars] in A. apply andb_true_iff in A as (Pc & A).
    rewrite Pc.
    assert (rep p min (w ++ s') (S n) k <> None) as N
        by (apply IH; [exact A | simpl in L; lia | exact K]).
    destruct (rep p min (w ++ s') (S n) k); [discriminate | contradiction].
Qed.

Lemma exec_complete {R : Type} (r : regex) :
  forall (w : string) (cs cs' : captures),
    parses r w cs cs' ->
    forall (s' : string) (k : string -> captures -> option R),
      k s' cs' <> None -> exec r (w ++ s') cs k <> None.
Proof.
  induction r as [c|p min|a IHa b IHb|n g IHg]; intros w cs cs' P s' k K;
    cbn [parses] in P; cbn [exec].
  - destruct P as (-> & ->). cbn [append]. now rewrite Ascii.eqb_refl.
  - destruct P as (A & L & ->).
    apply (rep_complete p min w s' 0 (fun s0 => k s0 cs)); [exact A | lia | exact K].
  - destruct P as (u & v & cm & -> & Pa & Pb). rewrite append_assoc.
    apply (IHa _ _ _ Pa). now apply (IHb _ _ _ Pb).
  - destruct P as (cg & Pg & ->).
    apply (IHg _ _ _ Pg).
    now rewrite length_append, Nat.add_sub, take_append.
Qed.

(** Of the runs a greedy repetition can take, the longest one after which
    the continuation answers is the one taken. *)
Lemma rep_first {R : Type} (p : ascii -> bool) (min : nat) (s : string) :
  forall (n : nat) (k : string -> option R) (x : R),
    rep p min s n k = Some x ->
    exists w s', s = w ++ s' /\ all_chars p w = true /\
                 min <= n + String.length w /\ k s' = Some x /\
                 forall w2 s2, s = w2 ++ s2 -> all_chars p w2 = true ->
                               String.length w < String.length w2 ->
                               k s2 = None.
Proof.
  induction s as [|c s IH]; intros n k x H; cbn [rep] in H.
  - destruct (Nat.leb min n) eqn:L; [|discriminate]. apply Nat.leb_le in L.
    exists EmptyString, EmptyString. repeat split; [simpl; lia | exact H |].
    intros w2 s2 E _ Lw. destruct w2; [simpl in Lw; lia | discriminate].
  - assert (stop : rep p min s (S n) k = None \/ p c = false ->
                   (if Nat.leb min n then k (String c s) else None) = Some x ->
                   exists w s', String c s = w ++ s' /\ all_chars p w = true /\
                                min <= n + String.length w /\ k s' = Some x /\
                                forall w2 s2, String c s = w2 ++ s2 ->
                                              all_chars p w2 = true ->
                                              String.length w < String.length w2 ->
                                              k s2 = None).
    { intros F S0. destruct (Nat.leb min n) eqn:L; [|discriminate].
      apply Nat.leb_le in L.
      exists EmptyString, (String c s). repeat split; [simpl; lia | exact S0 |].
      intros w2 s2 E A Lw. destruct w2 as [|d w2]; [simpl in Lw; lia|].
      cbn [append] in E. injection E as <- ->.
      cbn [all_chars] in A. apply andb_true_iff in A as (Pc & A).
      destruct F as [F | F]; [|congruence].
      destruct (k s2) eqn:K; [|reflexivity].
      exfalso. apply (rep_complete p min w2 s2 (S n) k A); [lia | congruence | exact F]. }
    destruct (p c) eqn:P; [|apply stop; [now right | exact H]].
    destruct (rep p min s (S n) k) as [y|] eqn:Rr; [|apply stop; [now left | exact H]].
    injection H as ->.
    destruct (IH _ _ _ Rr) as (w & s' & -> & A & L & K & F).
    exists (String c w), s'. cbn [append all_chars String.length].
    rewrite P, A. repeat split; [lia | exact K |].
    intros w2 s2 E A2 Lw. destruct w2 as [|d w2]; [simpl in Lw; lia|].
    cbn [append] in E. injection E as <- E.
    cbn [all_chars] in A2. apply andb_true_iff in A2 as (_ & A2).
    apply (F w2 s2 E A2). simpl in Lw. lia.
Qed.

Lemma nonempty_length (s : string) : 1 <= String.length s -> s <> EmptyString.
Proof. destruct s; simpl; [lia | discriminate]. Qed.

(** What a match of the attendee pattern looks like. *)
Lemma attendee_shape (w : string) (cs : captures) :
  parses attendee_re w [] cs ->
  exists name ws addr,
    w = name ++ ws ++ "(" ++ addr ++ ")" /\
    cs = [(2, addr); (1, name)] /\
    name <> EmptyString /\
    all_chars is_space ws = true /\ ws <> EmptyString /\
    contains "@" addr.
Proof.
  cbn [attendee_re seq_of parses].
  intros (u1 & v1 & c1 & -> & (cg1 & (A1 & L1 & ->) & ->) &
          u2 & v2 & c2 & -> & (A2 & L2 & ->) &
          u3 & v3 & c3 & -> & (-> & ->) &
          u4 & v4 & c4 & -> & (cg4 & Pin & ->) & (-> & ->)).
  destruct Pin as (a1 & b1 & d1 & -> & (B1 & M1 & ->) &
                   a2 & b2 & d2 & -> & (-> & ->) &
                   a3 & b3 & d3 & -> & (B3 & M3 & ->) &
                   a4 & b4 & d4 & -> & (-> & ->) & (B5 & M5 & ->)).
  exists u1, u2, (a1 ++ "@" ++ a3 ++ "." ++ b4). split; [reflexivity|].
  split; [reflexivity|]. split; [now apply nonempty_length|].
  split; [exact A2|]. split; [now apply nonempty_length|].
  now exists a1, (a3 ++ "." ++ b4).
Qed.

(** What a match of the mention pattern looks like. *)
Lemma mention_shape (w : string) (cs : captures) :
  parses mention_re w [] cs ->
  exists name ws addr,
    w = name ++ ws ++ "(" ++ addr ++ ")" /\
    cs = [(2, addr); (1, name)] /\
    is_mention name ws addr.
Proof.
  cbn [mention_re seq_of parses].
  intros (u1 & v1 & c1 & -> & (cg1 & (A1 & L1 & ->) & ->) &
          u2 & v2 & c2 & -> & (A2 & L2 & ->) &
          u3 & v3 & c3 & -> & (-> & ->) &
          u4 & v4 & c4 & -> & (cg4 & Pin & ->) & (-> & ->)).
  destruct Pin as (a1 & b1 & d1 & -> & (B1 & M1 & ->) &
                   a2 & b2 & d2 & -> & (-> & ->) &
                   a3 & b3 & d3 & -> & (B3 & M3 & ->) &
                   a4 & b4 & d4 & -> & (-> & ->) & (B5 & M5 & ->)).
  exists u1, u2, (a1 ++ "@" ++ a3 ++ "." ++ b4). split; [reflexivity|].
  split; [reflexivity|].
  unfold is_mention. repeat split; try assumption; try now apply nonempty_length.
  exists a1, a3, b4. repeat split; try assumption; now apply nonempty_length.
Qed.

End RegexFacts.

Module MentionFacts.
Import JSFacts Regex RegexFacts.

Lemma contains_at (s : string) :
  contains "@" s -> all_chars (fun c => negb (Ascii.eqb c "@")) s = false.
Proof.
  intros (a & b & ->). rewrite all_chars_append. cbn [append all_chars].
  cbn. now rewrite andb_false_r.
Qed.

Lemma replace_go_skip (r : regex) (f : captures -> string) (s : string) :
  forall skip, replace_go r f s skip = replace_go r f (drop skip s) 0.
Proof.
  induction s as [|c s IH]; intros [|k]; try reflexivity.
  cbn [replace_go drop]. apply IH.
Qed.

Lemma tail_shape (t : string) (c0 cs : captures) :
  parses tail_re t c0 cs ->
  exists ws addr,
    t = ws ++ "(" ++ addr ++ ")" /\ cs = (2, addr) :: c0 /\
    all_chars is_space ws = true /\ ws <> EmptyString /\
    is_address addr.
Proof.
  cbn [tail_re seq_of parses].
  intros (u2 & v2 & c2 & -> & (A2 & L2 & ->) &
          u3 & v3 & c3 & -> & (-> & ->) &
          u4 & v4 & c4 & -> & (cg4 & Pin & ->) & (-> & ->)).
  destruct Pin as (a1 & b1 & d1 & -> & (B1 & M1 & ->) &
                   a2 & b2 & d2 & -> & (-> & ->) &
                   a3 & b3 & d3 & -> & (B3 & M3 & ->) &
                   a4 & b4 & d4 & -> & (-> & ->) & (B5 & M5 & ->)).
  exists u2, (a1 ++ "@" ++ a3 ++ "." ++ b4). split; [reflexivity|].
  split; [reflexivity|]. split; [exact A2|]. split; [now apply nonempty_length|].
  exists a1, a3, b4. repeat split; try assumption; now apply nonempty_length.
Qed.

Lemma length_nonempty (s : string) : s <> EmptyString -> 1 <= String.length s.
Proof. destruct s; [contradiction | simpl; lia]. Qed.

Lemma tail_parses (ws addr : string) (c0 : captures) :
  all_chars is_space ws = true -> ws <> EmptyString -> is_address addr ->
  parses tail_re (ws ++ "(" ++ addr ++ ")") c0 ((2, addr) :: c0).
Proof.
  intros A N (loc & domain & tld & -> & A1 & N1 & A2 & N2 & A3 & L3).
  cbn [tail_re seq_of parses].
  exists ws, ("(" ++ (loc ++ "@" ++ domain ++ "." ++ tld) ++ ")"), c0.
  split; [reflexivity|]. split; [repeat split; [exact A | now apply length_nonempty]|].
  exists "(", ((loc ++ "@" ++ domain ++ "." ++ tld) ++ ")"), c0.
  split; [reflexivity|]. split; [now split|].
  exists (loc ++ "@" ++ domain ++ "." ++ tld), ")", ((2, loc ++ "@" ++ domain ++ "." ++ tld) :: c0).
  split; [reflexivity|]. split; [|now split].
  exists c0. split; [|reflexivity].
  exists loc, ("@" ++ domain ++ "." ++ tld), c0.
  split; [reflexivity|]. split; [repeat split; [exact A1 | now apply length_nonempty]|].
  exists "@", (domain ++ "." ++ tld), c0.
  split; [reflexivity|]. split; [now split|].
  exists domain, ("." ++ tld), c0.
  split; [reflexivity|]. split; [repeat split; [exact A2 | now apply length_nonempty]|].
  exists ".", tld, c0.
  split; [reflexivity|]. split; [now split|].
  now repeat split.
Qed.

Lemma mention_re_unfold (s : string) :
  match_here mention_re s =
  rep name_class 1 s 0
      (fun s' => exec tail_re s' [(1, take (String.length s - String.length s') s)]
                      (fun s2 cs2 => Some (cs2, s2))).
Proof. reflexivity. Qed.

Lemma space_is_name (c : ascii) : is_space c = true -> name_class c = true.
Proof. intros H. unfold name_class. rewrite H. apply orb_true_r. Qed.

Lemma all_chars_impl (p q : ascii -> bool) (s : string) :
  (forall c, p c = true -> q c = true) ->
  all_chars p s = true -> all_chars q s = true.
Proof.
  intros I. induction s as [|c s IH]; [reflexivity|]. cbn [all_chars].
  intros H. apply andb_true_iff in H as (Pc & H).
  now rewrite (I _ Pc), IH.
Qed.

(** What a match of the mention pattern at the head of a text is: the
    name takes all but the last of the white space before the
    parenthesis. *)
Lemma match_here_mention (s rest : string) (cs : captures) :
  match_here mention_re s = Some (cs, rest) ->
  exists name ws addr,
    s = name ++ ws ++ "(" ++ addr ++ ")" ++ rest /\
    cs = [(2, addr); (1, name)] /\
    is_mention name ws addr /\ String.length ws = 1.
Proof.
  rewrite mention_re_unfold. intros H.
  destruct (rep_first _ _ _ _ _ _ H) as (w & s' & -> & A & L & K & F).
  rewrite length_append, Nat.add_sub, take_append in K.
  destruct (exec_sound _ _ _ _ _ K) as (t & s2 & cs2 & -> & P & [= -> ->]).
  destruct (tail_shape _ _ _ P) as (ws & addr & -> & -> & Aw & Nw & Ha).
  exists w, ws, addr. rewrite !append_assoc. split; [reflexivity|].
  split; [reflexivity|]. split.
  - unfold is_mention. repeat split; try assumption.
    + apply nonempty_length. simpl in L. lia.
  - destruct ws as [|c ws]; [contradiction|].
    destruct ws as [|d ws]; [reflexivity|]. exfalso.
    cbn [all_chars] in Aw. apply andb_true_iff in Aw as (Sc & Aw).
    specialize (F (w ++ String c EmptyString)
                  ((String d ws ++ "(" ++ addr ++ ")") ++ rest)).
    assert (exec tail_re ((String d ws ++ "(" ++ addr ++ ")") ++ rest)
                 [(1, take (String.length (w ++ (String c (String d ws) ++ "(" ++ addr ++ ")") ++ rest)
                            - String.length ((String d ws ++ "(" ++ addr ++ ")") ++ rest))
                           (w ++ (String c (String d ws) ++ "(" ++ addr ++ ")") ++ rest))]
                 (fun s2 cs2 => Some (cs2, s2)) <> None) as X.
    { apply (exec_complete tail_re _ _ _
               (tail_parses (String d ws) addr _ Aw ltac:(discriminate) Ha)).
      discriminate. }
    apply X, F.
    + rewrite !append_assoc. reflexivity.
    + rewrite all_chars_append, A. cbn [all_chars]. now rewrite (space_is_name _ Sc).
    + rewrite length_append. simpl. lia.
Qed.

Lemma mention_parses (name ws addr : string) :
  is_mention name ws addr ->
  parses mention_re (name ++ ws ++ "(" ++ addr ++ ")") [] [(2, addr); (1, name)].
Proof.
  intros (A & N & Aw & Nw & Ha).
  change mention_re with (Cat (Group 1 (Rep name_class 1)) tail_re).
  cbn [parses]. exists name, (ws ++ "(" ++ addr ++ ")"), [(1, name)].
  split; [reflexivity|]. split.
  - exists []. split; [|reflexivity]. repeat split; [exact A | now apply length_nonempty].
  - now apply tail_parses.
Qed.

Lemma match_here_mention_none (s : string) :
  match_here mention_re s = None -> ~ mention_starts s.
Proof.
  intros H (name & ws & addr & rest & M & ->).
  revert H. unfold match_here.
  replace (name ++ ws ++ "(" ++ addr ++ ")" ++ rest)
    with ((name ++ ws ++ "(" ++ addr ++ ")") ++ rest)
    by (now rewrite !append_assoc).
  apply (exec_complete mention_re _ _ _ (mention_parses _ _ _ M)). discriminate.
Qed.

Lemma run_unique (p : ascii -> bool) (a : string) :
  forall (a' : string) (c c' : ascii) (t t' : string),
    all_chars p a = true -> all_chars p a' = true ->
    p c = false -> p c' = false ->
    a ++ String c t = a' ++ String c' t' ->
    a = a' /\ c = c' /\ t = t'.
Proof.
  induction a as [|x a IH]; intros a' c c' t t' A A' Pc Pc' E.
  - destruct a' as [|y a']; cbn [append] in E.
    + now injection E as -> ->.
    + injection E as -> _. cbn [all_chars] in A'.
      apply andb_true_iff in A' as (Py & _). congruence.
  - cbn [all_chars] in A. apply andb_true_iff in A as (Px & A).
    destruct a' as [|y a']; cbn [append] in E.
    + injection E as -> _. congruence.
    + injection E as -> E. cbn [all_chars] in A'.
      apply andb_true_iff in A' as (_ & A').
      destruct (IH _ _ _ _ _ A A' Pc Pc' E) as (-> & -> & ->). now repeat split.
Qed.

Lemma last_unique (a : string) :
  forall (a' : string) (c c' : ascii),
    a ++ String c EmptyString = a' ++ String c' EmptyString -> a = a' /\ c = c'.
Proof.
  induction a as [|x a IH]; intros a' c c' E.
  - destruct a' as [|y a']; cbn [append] in E.
    + now injection E as ->.
    + injection E as -> E. destruct a'; discriminate.
  - destruct a' as [|y a']; cbn [append] in E.
    + injection E as -> E. destruct a; discriminate.
    + injection E as -> E. destruct (IH _ _ _ E) as (-> & ->). now split.
Qed.

Lemma local_not_paren (c : ascii) : local_class c = true -> not_paren c = true.
Proof.
  unfold not_paren. destruct (Ascii.eqb c ")") eqn:E; [|reflexivity].
  apply Ascii.eqb_eq in E as ->. intros H. vm_compute in H. discriminate.
Qed.

Lemma domain_not_paren (c : ascii) : domain_class c = true -> not_paren c = true.
Proof.
  unfold not_paren. destruct (Ascii.eqb c ")") eqn:E; [|reflexivity].
  apply Ascii.eqb_eq in E as ->. intros H. vm_compute in H. discriminate.
Qed.

Lemma alpha_not_paren (c : ascii) : is_alpha c = true -> not_paren c = true.
Proof.
  unfold not_paren. destruct (Ascii.eqb c ")") eqn:E; [|reflexivity].
  apply Ascii.eqb_eq in E as ->. intros H. vm_compute in H. discriminate.
Qed.

Lemma address_no_paren (addr : string) :
  is_address addr -> all_chars not_paren addr = true.
Proof.
  intros (loc & domain & tld & -> & A1 & _ & A2 & _ & A3 & _).
  rewrite !all_chars_append.
  rewrite (all_chars_impl _ _ _ local_not_paren A1).
  rewrite (all_chars_impl _ _ _ domain_not_paren A2).
  rewrite (all_chars_impl _ _ _ alpha_not_paren A3).
  reflexivity.
Qed.

(** A text starts with at most one mention whose white space is a single
    character. *)
Lemma mention_unique (name ws addr s name' ws' addr' s' : string) :
  is_mention name ws addr -> String.length ws = 1 ->
  is_mention name' ws' addr' -> String.length ws' = 1 ->
  name ++ ws ++ "(" ++ addr ++ ")" ++ s = name' ++ ws' ++ "(" ++ addr' ++ ")" ++ s' ->
  name = name' /\ ws = ws' /\ addr = addr' /\ s = s'.
Proof.
  intros (A & _ & Aw & _ & Ha) L (A' & _ & Aw' & _ & Ha') L' E.
  rewrite <- !(append_assoc name), <- !(append_assoc name') in E.
  assert (all_chars name_class (name ++ ws) = true) as R1.
  { rewrite all_chars_append, A. apply (all_chars_impl _ _ _ space_is_name Aw). }
  assert (all_chars name_class (name' ++ ws') = true) as R2.
  { rewrite all_chars_append, A'. apply (all_chars_impl _ _ _ space_is_name Aw'). }
  cbn [append] in E.
  destruct (run_unique name_class _ _ "("%char "("%char _ _ R1 R2
              eq_refl eq_refl E) as (E1 & _ & E2).
  destruct ws as [|c [|? ?]]; try discriminate.
  destruct ws' as [|c' [|? ?]]; try discriminate.
  apply last_unique in E1 as (-> & ->).
  destruct (run_unique not_paren _ _ ")"%char ")"%char _ _
              (address_no_paren _ Ha) (address_no_paren _ Ha') eq_refl eq_refl E2)
    as (-> & _ & ->).
  now repeat split.
Qed.

Lemma marked_deterministic (s out1 : string) :
  mentions_marked s out1 -> forall out2, mentions_marked s out2 -> out1 = out2.
Proof.
  induction 1 as [|c s out N H IH|name ws addr s out M L H IH]; intros out2 H2.
  - inversion H2 as [|c s out N H E1 E2|name ws addr s out M L H E1 E2];
      [reflexivity|].
    destruct M as (_ & Nn & _). destruct name; [contradiction | discriminate].
  - inversion H2 as [|c' s' out' N' H' E1 E2|name ws addr s' out' M L H' E1 E2].
    + f_equal. now apply IH.
    + elim N. exists name, ws, addr, s'. now split.
  - remember (name ++ ws ++ "(" ++ addr ++ ")" ++ s) as whole eqn:W.
    destruct H2 as [|c' s' out' N' H'|name' ws' addr' s' out' M' L' H'].
    + destruct M as (_ & Nn & _). destruct name; [contradiction | discriminate].
    + elim N'. rewrite W. exists name, ws, addr, s. now split.
    + destruct (mention_unique _ _ _ _ _ _ _ _ M' L' M L W) as (-> & -> & -> & ->).
      f_equal. now apply IH.
Qed.

Lemma marked_by_replace (n : nat) :
  forall s, String.length s <= n ->
            mentions_marked s (replace_go mention_re mention_markup s 0).
Proof.
  induction n as [|n IH]; intros s L.
  - destruct s; [constructor | simpl in L; lia].
  - destruct s as [|c s]; [constructor|]. cbn [replace_go].
    destruct (match_here mention_re (String c s)) as [[cs rest]|] eqn:M.
    + destruct (match_here_mention _ _ _ M) as (name & ws & addr & E & -> & Hm & Lw).
      rewrite replace_go_skip.
      assert (name <> EmptyString) as Nn by apply Hm.
      destruct name as [|c0 name]; [contradiction|].
      remember (ws ++ "(" ++ addr ++ ")") as tail eqn:T.
      assert (String c s = (String c0 name ++ tail) ++ rest) as E'.
      { rewrite E, T, !append_assoc. reflexivity. }
      cbn [append] in E'. injection E' as <- ->.
      cbn [String.length]. rewrite (length_append (name ++ tail) rest).
      replace (S (String.length (name ++ tail) + String.length rest)
               - String.length rest - 1)
        with (String.length (name ++ tail)) by lia.
      rewrite drop_append.
      replace (String c ((name ++ tail) ++ rest))
        with (String c name ++ ws ++ "(" ++ addr ++ ")" ++ rest)
        by (subst tail; rewrite !append_assoc; cbn [append];
            rewrite ?append_assoc; reflexivity).
      apply marked_mention; [exact Hm | exact Lw|].
      apply IH. simpl in L. rewrite length_append in L. lia.
    + apply marked_keep; [now apply match_here_mention_none|].
      apply IH. simpl in L. lia.
Qed.

End MentionFacts.

(** X11.  A value of the entity panel without an at sign is shown as a plain
    tag carrying the value as it is.  The class of a plain tag is the grey
    default for a type that is neither one of the four coloured types nor
    a name every object inherits; for an inherited name such as
    [constructor] or [toString] the lookup finds the inherited member,
    which is truthy, so the class is whatever that member prints as and
    not the grey default.  A value shown as an email chip has the shape
    the chip suggests: the name and the address on the chip stand in the
    value, the address in parentheses after the name and white space, and
    the address holds an at sign. *)
Theorem attendee_chip_sound (type value : string) :
  (all_chars (fun c => negb (Ascii.eqb c "@")) value = true ->
   value_tag type value = EntityTag (tag_class type) value) /\
  (In type object_prototype_members -> tag_class type = ClassOfMember type) /\
  (~ In type object_prototype_members ->
   ~ In type ["DATE"; "TIME"; "DURATION"; "ATTENDEE"] ->
   tag_class type = ClassText "entity-tag bg-gray-200 text-gray-800") /\
  (forall html,
      value_tag type value = EmailChip html ->
      exists pre name ws addr post,
        value = pre ++ name ++ ws ++ "(" ++ addr ++ ")" ++ post /\
        html = chip_innerHTML name addr /\
        name <> EmptyString /\
        all_chars is_space ws = true /\ ws <> EmptyString /\
        contains "@" addr).
Proof.
  split; [|split; [|split]].
  - unfold value_tag. intros A.
    destruct (Regex.search Regex.attendee_re value) as [cs|] eqn:S0; [|reflexivity].
    destruct (RegexFacts.search_sound _ _ _ S0) as (pre & w & rest & -> & P).
    destruct (RegexFacts.attendee_shape _ _ P)
      as (name & ws & addr & -> & _ & _ & _ & _ & C).
    rewrite !RegexFacts.all_chars_append, (MentionFacts.contains_at _ C) in A.
    rewrite !andb_false_r, ?andb_false_l in A.
    repeat (rewrite ?andb_false_r, ?andb_false_l in A; cbn in A).
    discriminate.
  - intros I. unfold object_prototype_members in I.
    repeat (destruct I as [<- | I]; [reflexivity|]). destruct I.
  - intros N C. unfold tag_class, entityColors.
    destruct (String.eqb type "DATE") eqn:E1;
      [apply String.eqb_eq in E1; elim C; subst; simpl; tauto|].
    destruct (String.eqb type "TIME") eqn:E2;
      [apply String.eqb_eq in E2; elim C; subst; simpl; tauto|].
    destruct (String.eqb type "DURATION") eqn:E3;
      [apply String.eqb_eq in E3; elim C; subst; simpl; tauto|].
    destruct (String.eqb type "ATTENDEE") eqn:E4;
      [apply String.eqb_eq in E4; elim C; subst; simpl; tauto|].
    destruct (existsb (String.eqb type) object_prototype_members) eqn:X;
      [|reflexivity].
    apply existsb_exists in X as (m & I & E). apply String.eqb_eq in E.
    subst m. contradiction.
  - unfold value_tag. intros html H.
    destruct (Regex.search Regex.attendee_re value) as [cs|] eqn:S0;
      [|discriminate].
    destruct (RegexFacts.search_sound _ _ _ S0) as (pre & w & rest & -> & P).
    destruct (RegexFacts.attendee_shape _ _ P)
      as (name & ws & addr & -> & -> & Nn & Aw & Nw & C).
    cbn [Regex.capture Nat.eqb] in H.
    destruct (negb (String.eqb addr EmptyString)); [|discriminate].
    injection H as <-.
    exists pre, name, ws, addr, rest. rewrite !JSFacts.append_assoc.
    now repeat split.
Qed.

Lemma attendee_chip_sound_witness :
  value_tag "ATTENDEE" "Jane Doe" =
    EntityTag (ClassText "entity-tag bg-yellow-200 text-yellow-800") "Jane Doe" /\
  value_tag "constructor" "Jane Doe" =
    EntityTag (ClassOfMember "constructor") "Jane Doe" /\
  value_tag "PLACE" "Room 4" =
    EntityTag (ClassText "entity-tag bg-gray-200 text-gray-800") "Room 4" /\
  exists pre name ws addr post,
    "Jane Doe (jane@x.com)" = pre ++ name ++ ws ++ "(" ++ addr ++ ")" ++ post /\
    chip_innerHTML "Jane Doe" "jane@x.com" = chip_innerHTML name addr /\
    contains "@" addr.
Proof.
  split; [|split; [|split]].
  - apply (proj1 (attendee_chip_sound "ATTENDEE" "Jane Doe")). reflexivity.
  - rewrite (proj1 (attendee_chip_sound "constructor" "Jane Doe") eq_refl).
    assert (In "constructor" object_prototype_members) as I by (simpl; tauto).
    exact (f_equal (fun c => EntityTag c "Jane Doe")
             (proj1 (proj2 (attendee_chip_sound "constructor" "Jane Doe")) I)).
  - rewrite (proj1 (attendee_chip_sound "PLACE" "Room 4") eq_refl).
    assert (~ In "PLACE" object_prototype_members) as N.
    { intros I. simpl in I. repeat (destruct I as [I|I]; [discriminate|]).
      exact I. }
    assert (~ In "PLACE" ["DATE"; "TIME"; "DURATION"; "ATTENDEE"]) as C.
    { intros I. simpl in I. repeat (destruct I as [I|I]; [discriminate|]).
      exact I. }
    exact (f_equal (fun c => EntityTag c "Room 4")
             (proj1 (proj2 (proj2 (attendee_chip_sound "PLACE" "Room 4"))) N C)).
  - destruct (proj2 (proj2 (proj2
                (attendee_chip_sound "ATTENDEE" "Jane Doe (jane@x.com)")))
                    (chip_innerHTML "Jane Doe" "jane@x.com") eq_refl)
      as (pre & name & ws & addr & post & E & H & _ & _ & _ & C).
    now exists pre, name, ws, addr, post.
Defined.

(** X12.  In the branch for messages with the shape of an email mention, the
    output is the message with every mention replaced by its two spans,
    reading from the left, and nothing else changed.  Wherever a name,
    white space and a parenthesised address start, they are replaced: the
    first span carries the name, which runs up to the last white-space
    character before the parenthesis, the second span the address, and
    reading resumes after the closing parenthesis.  A code unit at which
    no mention starts is kept as it came, in place.  This fixes the output:
    no other text is related to the message in this way. *)
Theorem mentions_marked_up (message : string) :
  is_selection_prompt message = false ->
  has_email_shape message = true ->
  mentions_marked message (formatEmailSelectionMessage message) /\
  (forall out,
      mentions_marked message out -> out = formatEmailSelectionMessage message).
Proof.
  intros S E.
  assert (mentions_marked message (formatEmailSelectionMessage message)) as M.
  { unfold formatEmailSelectionMessage. rewrite S, E. unfold Regex.replace_all.
    now apply (MentionFacts.marked_by_replace (String.length message)). }
  split; [exact M|].
  intros out H. symmetry. exact (MentionFacts.marked_deterministic _ _ M _ H).
Qed.

Lemma mentions_marked_up_witness :
  mentions_marked "Ask Jo  (jo@x.com)!"
    ("<span class=" ++ dq ++ "text-blue-700 font-medium" ++ dq ++ ">Ask Jo </span> "
     ++ "<span class=" ++ dq ++ "text-blue-500 text-sm" ++ dq ++ ">(jo@x.com)</span>!") /\
  ~ mentions_marked "Ask Jo  (jo@x.com)!" "Ask Jo  (jo@x.com)!".
Proof.
  split.
  - apply (proj1 (mentions_marked_up "Ask Jo  (jo@x.com)!" eq_refl eq_refl)).
  - intros H.
    apply (proj2 (mentions_marked_up "Ask Jo  (jo@x.com)!" eq_refl eq_refl)) in H.
    discriminate H.
Defined.

(* ===================================================================== *)
(** ** Further properties: choices and checkboxes *)
(* ===================================================================== *)

Module ToggleFacts.
Import SetFacts.

Lemma add_twice (x : string) (s : StrSet.t) :
  StrSet.add x (StrSet.add x s) = StrSet.add x s.
Proof.
  assert (StrSet.has x (StrSet.add x s) = true) as H
      by (apply has_In, add_In; now right).
  unfold StrSet.add at 1. now rewrite H.
Qed.

Lemma delete_absent (x : string) (s : StrSet.t) :
  ~ In x s -> StrSet.delete x s = s.
Proof.
  intros N. unfold StrSet.delete. apply forallb_filter_id, forallb_forall.
  intros y I. apply negb_true_iff, String.eqb_neq. intros ->. contradiction.
Qed.

Lemma delete_twice (x : string) (s : StrSet.t) :
  StrSet.delete x (StrSet.delete x s) = StrSet.delete x s.
Proof.
  apply delete_absent. rewrite delete_In. tauto.
Qed.

Lemma delete_add (x : string) (s : StrSet.t) :
  StrSet.delete x (StrSet.add x s) = StrSet.delete x s.
Proof.
  unfold StrSet.add. destruct (StrSet.has x s); [reflexivity|].
  unfold StrSet.delete. rewrite filter_app. cbn [filter].
  rewrite String.eqb_refl. cbn [negb]. apply app_nil_r.
Qed.

Lemma add_delete (x : string) (s : StrSet.t) :
  StrSet.add x (StrSet.delete x s) = (StrSet.delete x s ++ [x])%list.
Proof.
  unfold StrSet.add.
  assert (StrSet.has x (StrSet.delete x s) = false) as ->; [|reflexivity].
  apply has_not_In. rewrite delete_In. tauto.
Qed.

Lemma update_ctl_twice (i : nat) (f g : option_ctl -> option_ctl)
      (l : list option_ctl) :
  update_ctl i g (update_ctl i f l) = update_ctl i (fun o => g (f o)) l.
Proof.
  revert i. induction l as [|o l IH]; intros i; [reflexivity|].
  destruct i; cbn [update_ctl]; [reflexivity | now rewrite IH].
Qed.

Lemma update_ctl_same (i : nat) (f : option_ctl -> option_ctl)
      (l : list option_ctl) (o : option_ctl) :
  nth_error l i = Some o -> f o = o -> update_ctl i f l = l.
Proof.
  revert i. induction l as [|x l IH]; intros i N E; [reflexivity|].
  destruct i; cbn [update_ctl nth_error] in *.
  - injection N as ->. now rewrite E.
  - f_equal. now apply IH.
Qed.

Lemma toggle_twice (o : option_ctl) : toggle_checked (toggle_checked o) = o.
Proof. destruct o as [n c]. unfold toggle_checked, set_checked. cbn. now rewrite negb_involutive. Qed.

Lemma restore_toggle (o : option_ctl) :
  set_checked (checked o) (toggle_checked o) = o.
Proof. now destruct o. Qed.

Lemma option_body_options (i : nat) (st : state) (o : option_ctl) :
  nth_error (rendered_options st) i = Some o ->
  rendered_options (on_option_body i st) =
    update_ctl i toggle_checked (rendered_options st) /\
  selectedOptions (on_option_body i st) =
    (if negb (checked o) then StrSet.add (data_number o) (selectedOptions st)
     else StrSet.delete (data_number o) (selectedOptions st)).
Proof.
  intros N. unfold on_option_body. rewrite N. unfold record_choice, rendered_options.
  destruct (negb (checked o)); cbn; now rewrite PageFacts.options_update.
Qed.

Lemma click_checkbox_options (cr : bool) (i : nat) (st : state) (o : option_ctl) :
  nth_error (rendered_options st) i = Some o ->
  rendered_options (click_checkbox cr i st) =
    (if cr then rendered_options st
     else update_ctl i toggle_checked (rendered_options st)) /\
  selectedOptions (click_checkbox cr i st) =
    (if negb (checked o) then StrSet.add (data_number o) (selectedOptions st)
     else StrSet.delete (data_number o) (selectedOptions st)).
Proof.
  intros N. unfold click_checkbox. rewrite N.
  unfold on_checkbox, record_choice, rendered_options.
  cbn [toggle_checked set_checked checked data_number].
  split.
  - destruct cr, (negb (checked o)); cbn;
      rewrite !PageFacts.options_update; try reflexivity;
      rewrite update_ctl_twice;
      apply (update_ctl_same _ _ _ o N), restore_toggle.
  - destruct cr, (negb (checked o)); reflexivity.
Qed.

End ToggleFacts.

(** X13.  Recording a choice is idempotent, and the two choices undo each other
    as far as membership goes: checking an id twice is checking it once,
    likewise unchecking; unchecking after checking leaves the set as
    unchecking alone does (as it was, when the id was not selected); and
    checking after unchecking puts the id at the end of the set. *)
Theorem choice_recorded_once (number : string) (st : state) :
  (forall b, record_choice b number (record_choice b number st)
             = record_choice b number st) /\
  record_choice false number (record_choice true number st)
    = record_choice false number st /\
  (~ In number (selectedOptions st) -> record_choice false number st = st) /\
  selectedOptions (record_choice true number (record_choice false number st))
    = (StrSet.delete number (selectedOptions st) ++ [number])%list.
Proof.
  unfold record_choice, selected_add, selected_delete, with_selected.
  repeat split.
  - intros [|];
      cbn [selectedOptions chat inputValue entityPanelHidden entityDisplay
           requests alerts];
      [now rewrite ToggleFacts.add_twice | now rewrite ToggleFacts.delete_twice].
  - cbn [selectedOptions chat inputValue entityPanelHidden entityDisplay
         requests alerts].
    now rewrite ToggleFacts.delete_add.
  - intros N. rewrite (ToggleFacts.delete_absent _ _ N). now destruct st.
  - cbn [selectedOptions]. apply ToggleFacts.add_delete.
Qed.

Lemma choice_recorded_once_witness :
  record_choice false "3" (two_option_page true) = two_option_page true.
Proof.
  apply (proj1 (proj2 (proj2 (choice_recorded_once "3" (two_option_page true))))).
  intros [].
Defined.

(** X14.  A click on the text of an option.  The listener runs twice: on the
    click itself, in its last branch, which flips the checkbox and records
    the flipped state, and then on the click the label forwards to the
    checkbox, in its first branch, which records the state flipped back.
    So the second run undoes the first in the selection set: afterwards
    the id of the option is in the set exactly when its checkbox was
    checked before the click, and the membership of every other id is
    unchanged.  In a browser that puts a cancelled checkbox click back,
    the checkbox ends up flipped, so the page shows the opposite of what
    the set holds: a checked box for an id that is not selected, and an
    unchecked box for an id that is. *)
Theorem option_text_clicked
        (cancel_restores : bool) (i : nat) (st : state) (o : option_ctl) :
  nth_error (rendered_options st) i = Some o ->
  let st' := run cancel_restores st (text_click i) in
  rendered_options st' =
    (if cancel_restores then update_ctl i toggle_checked (rendered_options st)
     else rendered_options st) /\
  nth_error (rendered_options st') i =
    Some (if cancel_restores then toggle_checked o else o) /\
  (In (data_number o) (selectedOptions st') <-> checked o = true) /\
  (forall id, id <> data_number o ->
              (In id (selectedOptions st') <-> In id (selectedOptions st))).
Proof.
  intros N. cbv zeta. unfold text_click, run. cbn [fold_left step on_click].
  destruct (ToggleFacts.option_body_options i st o N) as (O1 & S1).
  assert (nth_error (rendered_options (on_option_body i st)) i
          = Some (toggle_checked o)) as N1
      by (rewrite O1; now apply PageFacts.update_ctl_nth).
  destruct (ToggleFacts.click_checkbox_options cancel_restores i _ _ N1)
    as (O2 & S2).
  assert (update_ctl i toggle_checked
            (update_ctl i toggle_checked (rendered_options st))
          = rendered_options st) as back.
  { rewrite ToggleFacts.update_ctl_twice.
    apply (ToggleFacts.update_ctl_same _ _ _ o N), ToggleFacts.toggle_twice. }
  assert (rendered_options (click_checkbox cancel_restores i (on_option_body i st))
          = (if cancel_restores
             then update_ctl i toggle_checked (rendered_options st)
             else rendered_options st)) as O3.
  { rewrite O2, O1. destruct cancel_restores; [reflexivity | exact back]. }
  split; [exact O3|]. split; [|split].
  - rewrite O3. destruct cancel_restores; [|exact N].
    now apply PageFacts.update_ctl_nth.
  - rewrite S2, S1. cbn [toggle_checked set_checked checked data_number].
    destruct (checked o); cbn [negb].
    + rewrite SetFacts.add_In. split; [reflexivity | now right].
    + rewrite SetFacts.delete_In. split; [intros [_ F]; now elim F | discriminate].
  - intros id D. rewrite S2, S1. cbn [toggle_checked set_checked checked data_number].
    destruct (checked o); cbn [negb];
      rewrite ?SetFacts.add_In, ?SetFacts.delete_In, ?SetFacts.add_In; tauto.
Qed.

Lemma option_text_clicked_witness :
  let st := two_option_page true in
  let st' := run true st (text_click 0) in
  let st'' := run true st' (text_click 0) in
  nth_error (rendered_options st) 0 = Some {| data_number := "1"; checked := false |} /\
  nth_error (rendered_options st') 0 = Some {| data_number := "1"; checked := true |} /\
  ~ In "1" (selectedOptions st') /\
  nth_error (rendered_options st'') 0 = Some {| data_number := "1"; checked := false |} /\
  In "1" (selectedOptions st'').
Proof.
  cbv zeta.
  destruct (option_text_clicked true 0 (two_option_page true)
              {| data_number := "1"; checked := false |} eq_refl)
    as (_ & N1 & S1 & _).
  cbv zeta in N1, S1.
  destruct (option_text_clicked true 0
              (run true (two_option_page true) (text_click 0))
              {| data_number := "1"; checked := true |} N1)
    as (_ & N2 & S2 & _).
  cbv zeta in N2, S2.
  split; [reflexivity|]. split; [exact N1|].
  split; [intros I; apply S1 in I; discriminate|].
  split; [exact N2|]. now apply S2.
Defined.

(** X15.  A click on the checkbox of an option records the state the click
    gives the checkbox: the id is in the set afterwards when the box was
    unchecked and out of it when the box was checked.  When the browser
    undoes the cancelled click no checkbox on the page changes; otherwise
    only the clicked one is flipped. *)
Theorem checkbox_click_recorded
        (cancel_restores : bool) (i : nat) (st : state) (o : option_ctl) :
  nth_error (rendered_options st) i = Some o ->
  let st' := step cancel_restores st (Click (OptionCheckbox i)) in
  (checked o = false -> In (data_number o) (selectedOptions st')) /\
  (checked o = true -> ~ In (data_number o) (selectedOptions st')) /\
  rendered_options st' =
    (if cancel_restores then rendered_options st
     else update_ctl i toggle_checked (rendered_options st)).
Proof.
  intros N. cbn [step on_click]. unfold click_checkbox. rewrite N.
  unfold on_checkbox, record_choice, rendered_options.
  cbn [toggle_checked set_checked checked data_number].
  split; [|split].
  - intros ->. cbn [negb]. destruct cancel_restores;
      cbn [selectedOptions with_chat with_selected selected_add selected_delete];
      apply SetFacts.add_In; now right.
  - intros ->. cbn [negb]. destruct cancel_restores;
      cbn [selectedOptions with_chat with_selected selected_add selected_delete];
      rewrite SetFacts.delete_In; tauto.
  - destruct cancel_restores, (negb (checked o)); cbn;
      rewrite !PageFacts.options_update; try reflexivity;
      rewrite ToggleFacts.update_ctl_twice;
      apply (ToggleFacts.update_ctl_same _ _ _ o N), ToggleFacts.restore_toggle.
Qed.

Lemma checkbox_click_recorded_witness :
  let st := two_option_page true in
  let st2 := run true st [Click (OptionCheckbox 1); Click (OptionCheckbox 1)] in
  nth_error (rendered_options st) 1 = Some {| data_number := "2"; checked := false |} /\
  In "2" (selectedOptions (step true st (Click (OptionCheckbox 1)))) /\
  rendered_options (step true st (Click (OptionCheckbox 1))) = rendered_options st /\
  selectedOptions st2 = ["2"].
Proof.
  cbv zeta. split; [reflexivity|].
  destruct (checkbox_click_recorded true 1 (two_option_page true)
              {| data_number := "2"; checked := false |} eq_refl)
    as (A & _ & O).
  split; [now apply A|]. split; [exact O | reflexivity].
Defined.

(** X16.  Confirm leaves every checkbox as it is.  So when all options on the
    page are checked, a select-all right after a confirm finds them all
    checked still: it unchecks them and the selection set stays empty. *)
Theorem confirm_leaves_checkboxes (cancel_restores : bool) (st : state) :
  let st1 := step cancel_restores st (Click SubmitSelectionButton) in
  let st2 := step cancel_restores st1 (Click SelectAllButton) in
  rendered_options st1 = rendered_options st /\
  (forallb checked (rendered_options st) = true ->
   selectedOptions st2 = [] /\
   rendered_options st2 = map (set_checked false) (rendered_options st)).
Proof.
  cbn [step on_click].
  assert (rendered_options (on_submit_selection st) = rendered_options st) as O1.
  { unfold on_submit_selection, rendered_options.
    destruct (Nat.eqb _ 0); [reflexivity|].
    cbn [chat with_selected sendMessage fetch addUserMessage with_chat].
    rewrite flat_map_app. cbn. apply app_nil_r. }
  assert (selectedOptions (on_submit_selection st) = []) as S1.
  { unfold on_submit_selection.
    destruct (Nat.eqb (StrSet.size (selectedOptions st)) 0) eqn:Z; [|reflexivity].
    now apply size_zero in Z. }
  split; [exact O1|]. intros A.
  rewrite PageFacts.select_all_selected, PageFacts.select_all_options, O1, A, S1.
  split; [|reflexivity].
  rewrite SetFacts.delete_all_filters. reflexivity.
Qed.

Lemma confirm_leaves_checkboxes_witness :
  let st := run true (two_option_page true) [Click SelectAllButton] in
  forallb checked (rendered_options st) = true /\
  selectedOptions st = ["1"; "2"] /\
  selectedOptions (run true st [Click SubmitSelectionButton; Click SelectAllButton])
    = [] /\
  forallb checked
          (rendered_options
             (run true st [Click SubmitSelectionButton; Click SelectAllButton]))
    = false.
Proof.
  cbv zeta. split; [reflexivity|]. split; [reflexivity|].
  destruct (proj2 (confirm_leaves_checkboxes
                     true (run true (two_option_page true) [Click SelectAllButton]))
                  eq_refl) as (S & O).
  split; [exact S|].
  change (run true (run true (two_option_page true) [Click SelectAllButton])
              [Click SubmitSelectionButton; Click SelectAllButton])
    with (step true (step true (run true (two_option_page true) [Click SelectAllButton])
                          (Click SubmitSelectionButton)) (Click SelectAllButton)).
  rewrite O. reflexivity.
Defined.

(* ===================================================================== *)
(** ** Further properties: entries, lines and the panel *)
(* ===================================================================== *)

Module SplitFacts.
Import JSFacts.

(** A text that lacks the first code unit of the separator is passed over
    whole by the search for the separator. *)
Lemma break_at_after (c : ascii) (sep a b : string) :
  all_chars (fun d => negb (Ascii.eqb d c)) a = true ->
  break_at (String c sep) (a ++ String c sep ++ b) = Some (a, b).
Proof.
  induction a as [|d a IH]; cbn [all_chars]; intros A.
  - change (EmptyString ++ String c sep ++ b) with (String c sep ++ b).
    rewrite break_at_here by apply (prefix_append (String c sep) b).
    now rewrite (drop_append (String c sep) b).
  - apply andb_true_iff in A as [A1 A2]. apply negb_true_iff in A1.
    change (String d a ++ String c sep ++ b)
      with (String d (a ++ String c sep ++ b)).
    rewrite break_at_later.
    + now rewrite (IH A2).
    + cbn [prefix]. destruct (ascii_dec c d) as [->|_]; [|reflexivity].
      now rewrite Ascii.eqb_refl in A1.
Qed.

Lemma break_at_free (c : ascii) (sep a : string) :
  all_chars (fun d => negb (Ascii.eqb d c)) a = true ->
  break_at (String c sep) a = None.
Proof.
  induction a as [|d a IH]; cbn [all_chars]; intros A; [reflexivity|].
  apply andb_true_iff in A as [A1 A2]. apply negb_true_iff in A1.
  rewrite break_at_later.
  - now rewrite (IH A2).
  - cbn [prefix]. destruct (ascii_dec c d) as [->|_]; [|reflexivity].
    now rewrite Ascii.eqb_refl in A1.
Qed.

Lemma nl_count (s : string) :
  match break_at nl s with
  | None => occurrences nl s = 0
  | Some (_, b) => occurrences nl s = S (occurrences nl b)
  end.
Proof.
  induction s as [|c s IH]; [reflexivity|].
  destruct (prefix nl (String c s)) eqn:P.
  - rewrite break_at_here by assumption. cbn [occurrences]. rewrite P.
    reflexivity.
  - rewrite break_at_later by assumption. cbn [occurrences]. rewrite P.
    destruct (break_at nl s) as [[a b]|]; exact IH.
Qed.

Lemma nl_nonempty : nl <> EmptyString.
Proof. discriminate. Qed.

Lemma split_lines_length (n : nat) :
  forall s, String.length s <= n ->
            List.length (split s nl) = S (occurrences nl s).
Proof.
  induction n as [|n IH]; intros s L; rewrite (split_unfold nl s nl_nonempty);
    pose proof (nl_count s) as C;
    destruct (break_at nl s) as [[a b]|] eqn:B.
  - apply (break_at_shorter _ _ _ _ nl_nonempty) in B. lia.
  - now rewrite C.
  - cbn [List.length]. rewrite C. f_equal. apply IH.
    apply (break_at_shorter _ _ _ _ nl_nonempty) in B. lia.
  - now rewrite C.
Qed.

End SplitFacts.

(** X17.  An entry written as id, delimiter, details is read back as that id and
    those details when the id holds no full stop and the details do not
    hold the delimiter.  Details that do hold it are cut there: what
    follows the second delimiter of an entry is not shown. *)
Theorem entry_read_back (number details lost : string) :
  all_chars (fun c => negb (Ascii.eqb c ".")) number = true ->
  (includes details ". " = false ->
   parse_option (number ++ ". " ++ details) = (Some number, Some details)) /\
  (all_chars (fun c => negb (Ascii.eqb c ".")) details = true ->
   parse_option (number ++ ". " ++ details ++ ". " ++ lost)
   = (Some number, Some details)).
Proof.
  intros N. split.
  - intros D.
    rewrite (FormatFacts.parse_option_delimited _ number details)
      by now apply (SplitFacts.break_at_after "." " ").
    unfold second_piece. unfold includes in D.
    now destruct (break_at ". " details).
  - intros D.
    rewrite (FormatFacts.parse_option_delimited _ number (details ++ ". " ++ lost))
      by now apply (SplitFacts.break_at_after "." " ").
    unfold second_piece.
    now rewrite (SplitFacts.break_at_after "." " " details lost D).
Qed.

Lemma entry_read_back_witness :
  parse_option "1. Jane Doe (jane@x.com)" = (Some "1", Some "Jane Doe (jane@x.com)") /\
  parse_option "2. Dr. Roe (roe@x.com)" = (Some "2", Some "Dr").
Proof.
  split.
  - apply (proj1 (entry_read_back "1" "Jane Doe (jane@x.com)" "" eq_refl)).
    reflexivity.
  - apply (proj2 (entry_read_back "2" "Dr" "Roe (roe@x.com)" eq_refl)).
    reflexivity.
Defined.

(** X18.  A selection prompt always gets at least one option control: the
    controls are one more than the line breaks of the trimmed option
    block.  When nothing but white space follows the marker, the one
    control has the empty id and [undefined] as details. *)
Theorem prompt_has_a_control (message : string) :
  is_selection_prompt message = true ->
  exists optionsText,
    snd (selection_parts message) = Some optionsText /\
    List.length (option_ids message) = S (occurrences nl (trim optionsText)) /\
    (all_chars is_space optionsText = true ->
     option_ids message = [EmptyString] /\ option_details message = ["undefined"]).
Proof.
  intros S.
  destruct (FormatFacts.selection_parts_bound message S) as (intro & rest & _ & P).
  exists (second_piece select_marker rest). rewrite P. split; [reflexivity|].
  unfold option_ids, option_details. rewrite S, P. cbn [snd]. split.
  - rewrite length_map. unfold option_lines.
    now apply (SplitFacts.split_lines_length (String.length (trim (second_piece select_marker rest)))).
  - intros B. unfold option_lines.
    rewrite (proj2 (TrimFacts.trim_empty _) B). now split.
Qed.

Lemma prompt_has_a_control_witness :
  let message := "Multiple contacts found for Jane. Please select one or more by number  " in
  is_selection_prompt message = true /\
  option_ids message = [EmptyString] /\
  option_details message = ["undefined"].
Proof.
  cbv zeta. split; [reflexivity|].
  destruct (prompt_has_a_control
              "Multiple contacts found for Jane. Please select one or more by number  "
              eq_refl) as (t & P & _ & B).
  injection P as <-. apply B. reflexivity.
Defined.

(** X19.  The text confirm posts can be taken apart again: joining ids that
    hold no blank with [" and "] and splitting the result at [" and "]
    gives the ids back, in order. *)
Theorem selection_text_read_back (ids : list string) :
  ids <> [] ->
  Forall (fun id => all_chars (fun c => negb (Ascii.eqb c " ")) id = true) ids ->
  split (join " and " ids) " and " = ids.
Proof.
  assert (sep : " and " <> EmptyString) by discriminate.
  intros N F. induction F as [|x l Hx F IH]; [contradiction|].
  destruct l as [|y l].
  - cbn [join]. rewrite (JSFacts.split_unfold _ _ sep).
    now rewrite (SplitFacts.break_at_free " " "and " x Hx).
  - change (join " and " (x :: y :: l)) with (x ++ " and " ++ join " and " (y :: l)).
    rewrite (JSFacts.split_unfold _ _ sep).
    rewrite (SplitFacts.break_at_after " " "and " x _ Hx).
    f_equal. apply IH. discriminate.
Qed.

Lemma selection_text_read_back_witness :
  split "2 and 1 and 10" " and " = ["2"; "1"; "10"].
Proof.
  apply (selection_text_read_back ["2"; "1"; "10"]); [discriminate|].
  repeat constructor.
Defined.

(** X20.  A refresh of the entity panel replaces what the panel showed: with a
    payload that has entries the panel is made visible and its content
    depends on the payload alone, with one group per entry whose value
    list is not empty and one completion mark exactly when the context is
    complete; with entities absent or without entries the panel is left
    untouched, neither cleared nor shown. *)
Theorem panel_refresh_replaces
        (es : list (string * list string)) (isComplete : bool) (st : state) :
  updateEntityPanel None isComplete st = st /\
  updateEntityPanel (Some []) isComplete st = st /\
  (es <> [] ->
   let st' := updateEntityPanel (Some es) isComplete st in
   entityPanelHidden st' = false /\
   (forall before wasComplete,
       updateEntityPanel (Some es) isComplete
                         (updateEntityPanel before wasComplete st) = st') /\
   List.length (filter is_mark (entityDisplay st')) = (if isComplete then 1 else 0) /\
   List.length (filter (fun i => negb (is_mark i)) (entityDisplay st')) =
   List.length (filter (fun e => negb (Nat.eqb (List.length (snd e)) 0)) es)).
Proof.
  split; [reflexivity|]. split; [reflexivity|].
  intros N. destruct es as [|e es]; [contradiction|]. cbv zeta.
  split; [reflexivity|]. split.
  - intros [[|b bs]|] wasComplete; reflexivity.
  - cbn [updateEntityPanel entityDisplay with_panel].
    assert (groups : forall l : list (string * list string),
               filter is_mark (entity_groups l) = [] /\
               List.length (filter (fun i => negb (is_mark i)) (entity_groups l)) =
               List.length (filter (fun e => negb (Nat.eqb (List.length (snd e)) 0)) l)).
    { induction l as [|[t vs] l [IH1 IH2]]; [now split|].
      unfold entity_groups in *. cbn [flat_map snd filter].
      destruct vs as [|v vs]; cbn [app filter is_mark negb List.length Nat.eqb];
        [now split|].
      rewrite IH1. split; [reflexivity|]. cbn [List.length]. now rewrite IH2. }
    destruct (groups (e :: es)) as [G1 G2].
    rewrite !filter_app, !length_app, G1, G2.
    destruct isComplete; cbn; split; lia.
Qed.

Lemma panel_refresh_replaces_witness :
  let es := [("DATE", ["Monday"]); ("ATTENDEE", [])] in
  let once := updateEntityPanel (Some es) true initial in
  es <> [] /\
  updateEntityPanel (Some es) true once = once /\
  List.length (filter is_mark (entityDisplay once)) = 1 /\
  List.length (filter (fun i => negb (is_mark i)) (entityDisplay once)) = 1.
Proof.
  cbv zeta.
  assert ([("DATE", ["Monday"]); ("ATTENDEE", @nil string)] <> []) as N by discriminate.
  split; [exact N|].
  destruct (proj2 (proj2 (panel_refresh_replaces
                            [("DATE", ["Monday"]); ("ATTENDEE", [])] true initial)) N)
    as (_ & R & M & G).
  split; [apply (R (Some [("DATE", ["Monday"]); ("ATTENDEE", [])]) true)|].
  split; [exact M | exact G].
Defined.

Module BlockFacts.
Import JSFacts TrimFacts RegexFacts SplitFacts.

Lemma split_nonempty (sep s : string) : sep <> EmptyString -> split s sep <> [].
Proof.
  intros Hsep. rewrite (split_unfold sep s Hsep).
  destruct (break_at sep s) as [[a b]|]; discriminate.
Qed.

Lemma join_cons (sep x : string) (l : list string) :
  l <> [] -> join sep (x :: l) = x ++ sep ++ join sep l.
Proof. destruct l; [contradiction | reflexivity]. Qed.

Lemma join_split (sep : string) (n : nat) :
  sep <> EmptyString ->
  forall s, String.length s <= n -> join sep (split s sep) = s.
Proof.
  intros Hsep. induction n as [|n IH]; intros s L;
    rewrite (split_unfold sep s Hsep);
    destruct (break_at sep s) as [[a b]|] eqn:B; try reflexivity.
  - apply (break_at_shorter _ _ _ _ Hsep) in B. lia.
  - rewrite join_cons by now apply split_nonempty.
    rewrite IH by (apply (break_at_shorter _ _ _ _ Hsep) in B; lia).
    symmetry. now apply break_at_sound.
Qed.

(** Splitting a joined list at a separator whose first code unit occurs
    in none of the items gives the items back. *)
Lemma split_join (c : ascii) (sep : string) (l : list string) :
  l <> [] ->
  Forall (fun x => all_chars (fun d => negb (Ascii.eqb d c)) x = true) l ->
  split (join (String c sep) l) (String c sep) = l.
Proof.
  assert (Hsep : String c sep <> EmptyString) by discriminate.
  intros N F. induction F as [|x l Hx F IH]; [contradiction|].
  destruct l as [|y l].
  - cbn [join]. rewrite (split_unfold _ _ Hsep).
    now rewrite (break_at_free c sep x Hx).
  - rewrite join_cons by discriminate.
    rewrite (split_unfold _ _ Hsep), (break_at_after c sep x _ Hx).
    f_equal. apply IH. discriminate.
Qed.

Lemma trimEnd_append (x d : string) :
  trimEnd d <> EmptyString -> trimEnd (x ++ d) = x ++ trimEnd d.
Proof.
  intros N. induction x as [|c x IH]; [reflexivity|].
  cbn [append]. rewrite trimEnd_cons, IH.
  destruct (x ++ trimEnd d) eqn:E; [|reflexivity].
  destruct x; [now elim N | discriminate].
Qed.

Lemma trimStart_append (ws b : string) :
  all_chars is_space ws = true -> trimStart (ws ++ b) = trimStart b.
Proof.
  induction ws as [|c ws IH]; [reflexivity|].
  cbn [all_chars append trimStart]. intros A.
  apply andb_true_iff in A as [A1 A2]. now rewrite A1, IH.
Qed.

Lemma all_chars_weaken (p q : ascii -> bool) (s : string) :
  (forall c, p c = true -> q c = true) ->
  all_chars p s = true -> all_chars q s = true.
Proof.
  intros W. induction s as [|c s IH]; [reflexivity|].
  cbn [all_chars]. intros A. apply andb_true_iff in A as [A1 A2].
  now rewrite (W c A1), IH.
Qed.

Lemma space_is_not_plain (c : ascii) :
  negb (is_space c) && negb (Ascii.eqb c ".") = true ->
  is_space c = false /\ Ascii.eqb c "." = false /\ Ascii.eqb c "010" = false.
Proof.
  intros H. apply andb_true_iff in H as [H1 H2].
  apply negb_true_iff in H1. apply negb_true_iff in H2.
  repeat split; try assumption.
  destruct (Ascii.eqb c "010") eqn:E; [|reflexivity].
  apply Ascii.eqb_eq in E. subst c. discriminate.
Qed.

Lemma entry_one_line (e : string * string) :
  plain_id (fst e) -> plain_details (snd e) ->
  all_chars (fun d => negb (Ascii.eqb d "010")) (entry_text e) = true.
Proof.
  intros (_ & I) (_ & D & _). unfold entry_text.
  rewrite !all_chars_append, D. cbn [all_chars]. cbn.
  rewrite andb_true_r. revert I. apply all_chars_weaken.
  intros c H. now destruct (space_is_not_plain c H) as (_ & _ & ->).
Qed.

Lemma entry_parsed (e : string * string) :
  plain_id (fst e) -> plain_details (snd e) ->
  parse_option (entry_text e) = (Some (fst e), Some (snd e)).
Proof.
  intros (_ & I) (_ & _ & D & _). unfold entry_text.
  rewrite (FormatFacts.parse_option_delimited _ (fst e) (snd e)).
  - unfold second_piece. unfold includes in D. now destruct (break_at ". " (snd e)).
  - apply (break_at_after "." " "). revert I. apply all_chars_weaken.
    intros c H. now destruct (space_is_not_plain c H) as (_ & -> & _).
Qed.

Lemma block_trimmed (entries : list (string * string)) :
  entries <> [] ->
  Forall (fun e => plain_id (fst e) /\ plain_details (snd e)) entries ->
  trimEnd (block_text entries) = block_text entries /\
  block_text entries <> EmptyString /\
  exists c r, block_text entries = String c r /\ is_space c = false.
Proof.
  intros N F. unfold block_text. induction F as [|e l [He Hd] F IH]; [contradiction|].
  assert (trimEnd (entry_text e) = entry_text e /\
          exists c r, entry_text e = String c r /\ is_space c = false) as [Te Se].
  { unfold entry_text. destruct Hd as (Nd & _ & _ & Td).
    assert (trimEnd (snd e) <> EmptyString) as Nt by now rewrite Td.
    split.
    - rewrite <- (append_assoc (fst e) ". " (snd e)), trimEnd_append by exact Nt.
      now rewrite Td.
    - destruct He as (Ni & Ai). destruct (fst e) as [|c r]; [contradiction|].
      exists c, (r ++ ". " ++ snd e). split; [reflexivity|].
      cbn [all_chars] in Ai. apply andb_true_iff in Ai as [Ai _].
      now destruct (space_is_not_plain c Ai). }
  destruct l as [|e' l].
  - cbn [map join]. split; [exact Te|]. split; [|exact Se].
    destruct Se as (c & r & -> & _). discriminate.
  - cbn [map]. rewrite join_cons by discriminate.
    destruct IH as (T & Nn & _); [discriminate|].
    cbn [map] in T, Nn. split; [|split].
    + rewrite <- (append_assoc (entry_text e) nl), trimEnd_append by now rewrite T.
      now rewrite T.
    + destruct Se as (c & r & -> & _). discriminate.
    + destruct Se as (c & r & -> & Sc). now exists c, (r ++ nl ++ join nl (entry_text e' :: map entry_text l)).
Qed.

End BlockFacts.

(** X21.  [split] loses nothing: the pieces joined with the separator are the
    text again, and there is always at least one piece. *)
Theorem split_loses_nothing (s sep : string) :
  sep <> EmptyString ->
  split s sep <> [] /\ join sep (split s sep) = s.
Proof.
  intros Hsep. split; [now apply BlockFacts.split_nonempty|].
  now apply (BlockFacts.join_split sep (String.length s)).
Qed.

Lemma split_loses_nothing_witness :
  join ". " (split "1. Dr. Roe (roe@x.com)" ". ") = "1. Dr. Roe (roe@x.com)".
Proof.
  apply (split_loses_nothing "1. Dr. Roe (roe@x.com)" ". "). discriminate.
Defined.

(** X22.  A prompt written the way the widget builder expects is read back
    entry by entry.  When the option block of a selection prompt is white
    space followed by one entry per line, each an id, the delimiter and
    details, with ids free of white space and full stops and details on
    one line, free of the delimiter and not ending in white space, the
    option controls carry exactly those ids and details, in order. *)
Theorem well_formed_block_read_back
        (message ws : string) (entries : list (string * string)) :
  is_selection_prompt message = true ->
  snd (selection_parts message) = Some (ws ++ block_text entries) ->
  all_chars is_space ws = true ->
  entries <> [] ->
  Forall (fun e => plain_id (fst e) /\ plain_details (snd e)) entries ->
  option_ids message = map fst entries /\
  option_details message = map snd entries.
Proof.
  intros S P W N F.
  destruct (BlockFacts.block_trimmed entries N F) as (T & _ & c & r & B & Sc).
  assert (option_lines (ws ++ block_text entries) = map entry_text entries) as L.
  { unfold option_lines, trim.
    rewrite (BlockFacts.trimStart_append _ _ W), B. cbn [trimStart]. rewrite Sc, <- B, T.
    unfold block_text. apply (BlockFacts.split_join "010" EmptyString).
    - destruct entries; [contradiction | discriminate].
    - apply Forall_map. apply (Forall_impl _ (P := fun e => plain_id (fst e) /\ plain_details (snd e))); [|exact F].
      intros e [He Hd]. now apply BlockFacts.entry_one_line. }
  assert (forall g : option string * option string -> option string,
             map (fun entry => interpolate (g (parse_option entry)))
                 (map entry_text entries)
             = map (fun e => interpolate (g (Some (fst e), Some (snd e)))) entries) as M.
  { intros g. rewrite map_map. apply map_ext_in. intros e I.
    rewrite Forall_forall in F. destruct (F e I) as [He Hd].
    now rewrite BlockFacts.entry_parsed. }
  unfold option_ids, option_details. rewrite S, P, L. split.
  - rewrite (M fst). reflexivity.
  - rewrite (M snd). reflexivity.
Qed.

Lemma well_formed_block_read_back_witness :
  option_ids two_option_prompt = ["1"; "2"] /\
  option_details two_option_prompt =
    ["Jane Doe (jane@x.com)"; "Jane Roe (jane2@x.com)"].
Proof.
  apply (well_formed_block_read_back
           two_option_prompt nl
           [("1", "Jane Doe (jane@x.com)"); ("2", "Jane Roe (jane2@x.com)")]);
    try reflexivity; try discriminate.
  repeat constructor; discriminate.
Defined.

(** X23 at the two-option prompt: the intro paragraph, one button
    for each of the two controls, the aggregate controls once. *)
Lemma widget_markup_witness :
  exists intro,
    fst (selection_parts two_option_prompt) = Some intro /\
    formatEmailSelectionMessage two_option_prompt =
      formattedIntro intro
      ++ ("<div class=" ++ dq ++ "grid gap-2 mt-2" ++ dq ++ ">")
      ++ String.concat EmptyString
           [option_button "1" "Jane Doe (jane@x.com)";
            option_button "2" "Jane Roe (jane2@x.com)"]
      ++ aggregate_controls ++ "</div>".
Proof.
  destruct (FormatFacts.widget_markup two_option_prompt eq_refl)
    as (intro & I & _ & M).
  exists intro. split; [exact I | exact M].
Defined.
